(** * The todo API of to-do-multi-dynamodb: store, handlers and their properties

    The backend (the Express server listed in README.md) keeps two
    module-level variables, [todos] (an array of records) and [nextId]
    (a Number), and registers four route handlers.  This file embeds the
    handlers as pure functions from a store to a response and a new store,
    together with the parts of the JavaScript runtime they call
    ([String.prototype.trim], [parseInt], [isNaN], [Array.prototype.findIndex],
    [Array.prototype.splice], [Array.prototype.push]).

    Modelling decisions.
    - A JavaScript string is a list of UTF-16 code units ([N]).
    - The Numbers held in [nextId], in [todo.id] and returned by [parseInt]
      are integers; they are modelled as [Z], with [None] for [NaN].  A
      Number is an IEEE double, exact on integers up to 2^53; lemma
      [counter_counts_insertions] shows that the counter is one more than
      the number of accepted insertions, so the model is exact for every run
      with fewer than 2^53 - 1 insertions.
    - [new Date().toISOString()] reads the clock: the reading is an input
      of each request.
    - [process.env] is a record read once at start-up. *)

From Stdlib Require Import ZArith NArith QArith List String Ascii Bool Lia Sorted.
Import ListNotations.
Local Open Scope Z_scope.

(** ** The JavaScript runtime used by the handlers *)

Module JS.

Definition code_unit := N.
Definition jsstring := list code_unit.

(** An ASCII literal as a JavaScript string. *)
Definition lit (s : string) : jsstring :=
  map N_of_ascii (list_ascii_of_string s).

Definition jsstring_eqb (a b : jsstring) : bool :=
  if list_eq_dec N.eq_dec a b then true else false.

(** WhiteSpace and LineTerminator code points of ECMAScript: TAB, LF, VT,
    FF, CR, SP, NBSP, the Unicode space separators, LS, PS and ZWNBSP. *)
Definition is_white_space (c : code_unit) : bool :=
  ((9 <=? c) && (c <=? 13) || (c =? 32) || (c =? 160) || (c =? 5760)
   || (8192 <=? c) && (c <=? 8202) || (c =? 8232) || (c =? 8233)
   || (c =? 8239) || (c =? 8287) || (c =? 12288) || (c =? 65279))%N.

Fixpoint trimStart (s : jsstring) : jsstring :=
  match s with
  | c :: r => if is_white_space c then trimStart r else s
  | [] => []
  end.

Definition trimEnd (s : jsstring) : jsstring := rev (trimStart (rev s)).

(** [String.prototype.trim] *)
Definition trim (s : jsstring) : jsstring := trimEnd (trimStart s).

(** The value of a code unit as a digit in radix [R], if it is one. *)
Definition digit_value (R : Z) (c : code_unit) : option Z :=
  let v :=
    if ((48 <=? c) && (c <=? 57))%N then Some (Z.of_N c - 48)
    else if ((97 <=? c) && (c <=? 122))%N then Some (Z.of_N c - 87)
    else if ((65 <=? c) && (c <=? 90))%N then Some (Z.of_N c - 55)
    else None in
  match v with
  | Some d => if d <? R then Some d else None
  | None => None
  end.

(** The digits of the longest prefix of [s] made of radix-[R] digits. *)
Fixpoint digit_prefix (R : Z) (s : jsstring) : list Z :=
  match s with
  | c :: r =>
      match digit_value R c with
      | Some d => d :: digit_prefix R r
      | None => []
      end
  | [] => []
  end.

Definition radix_value (R : Z) (ds : list Z) : Z :=
  fold_left (fun acc d => acc * R + d) ds 0.

(** The sign read by [parseInt] and the text after it. *)
Definition strip_sign (s : jsstring) : Z * jsstring :=
  match s with
  | c :: r =>
      if (c =? 45)%N then (-1, r)
      else if (c =? 43)%N then (1, r)
      else (1, s)
  | [] => (1, s)
  end.

(** The radix chosen by [parseInt] and the text after a [0x] or [0X]. *)
Definition strip_hex_prefix (s : jsstring) : Z * jsstring :=
  match s with
  | c0 :: c1 :: r =>
      if ((c0 =? 48) && ((c1 =? 120) || (c1 =? 88)))%N then (16, r)
      else (10, s)
  | _ => (10, s)
  end.

(** [parseInt(string)] with no radix argument; [None] is [NaN], so that
    [isNaN] of the result is the test for [None].  Leading white space is
    skipped, one sign is read, a [0x] or [0X] prefix switches to radix 16,
    and the longest run of digits is the value; whatever follows the digits
    is ignored. *)
Definition parseInt (input : jsstring) : option Z :=
  let (sign, S1) := strip_sign (trimStart input) in
  let (R, S2) := strip_hex_prefix S1 in
  match digit_prefix R S2 with
  | [] => None
  | ds => Some (sign * radix_value R ds)
  end.

Section Arrays.
Context {A : Type}.

Fixpoint findIndex_from (p : A -> bool) (l : list A) (i : Z) : Z :=
  match l with
  | x :: r => if p x then i else findIndex_from p r (i + 1)
  | [] => -1
  end.

(** [Array.prototype.findIndex]: the index of the first element that
    satisfies [p], or -1. *)
Definition findIndex (p : A -> bool) (l : list A) : Z :=
  findIndex_from p l 0.

(** [Array.prototype.splice(start, deleteCount)] with no inserted items:
    the array after the call.  A negative [start] counts from the end,
    and both arguments are clamped to the array. *)
Definition splice (start deleteCount : Z) (l : list A) : list A :=
  let len := Z.of_nat (List.length l) in
  let actualStart :=
    if start <? 0 then Z.max (len + start) 0 else Z.min start len in
  let actualDeleteCount := Z.min (Z.max deleteCount 0) (len - actualStart) in
  firstn (Z.to_nat actualStart) l
    ++ skipn (Z.to_nat (actualStart + actualDeleteCount)) l.

(** [Array.prototype.push] of one item. *)
Definition push (l : list A) (x : A) : list A := l ++ [x].
End Arrays.

(** The values [JSON.parse] produces.  A number is carried as the rational
    it denotes. *)
#[warnings="-register-all"]
Inductive json : Type :=
  | JNull
  | JBool (b : bool)
  | JNumber (q : Q)
  | JString (s : jsstring)
  | JArray (elems : list json)
  | JObject (props : list (jsstring * json)).

(** The value of an expression that may be [undefined]. *)
Definition jsval := option json.

(** ToBoolean *)
Definition truthy (v : jsval) : bool :=
  match v with
  | None => false
  | Some JNull => false
  | Some (JBool b) => b
  | Some (JNumber q) => negb (Qeq_bool q 0)
  | Some (JString s) => negb (jsstring_eqb s [])
  | Some (JArray _) => true
  | Some (JObject _) => true
  end.

Definition typeof (v : jsval) : string :=
  match v with
  | None => "undefined"
  | Some JNull => "object"
  | Some (JBool _) => "boolean"
  | Some (JNumber _) => "number"
  | Some (JString _) => "string"
  | Some (JArray _) => "object"
  | Some (JObject _) => "object"
  end.

(** Property lookup in a parsed object: the last binding of a repeated key
    is the one [JSON.parse] keeps. *)
Fixpoint get_prop (key : jsstring) (props : list (jsstring * json)) : jsval :=
  match props with
  | (k, v) :: r =>
      match get_prop key r with
      | Some w => Some w
      | None => if jsstring_eqb k key then Some v else None
      end
  | [] => None
  end.

End JS.

Import JS.

(** ** The server *)

Record todo : Type := {
  id : Z;
  text : jsstring;
  createdAt : jsstring
}.

(** The two module-level variables. *)
Record store : Type := {
  todos : list todo;
  nextId : Z
}.

Definition initial_store : store := {| todos := []; nextId := 1 |}.

(** [process.env] as far as the server reads it. *)
Record environment : Type := {
  env_APP_NAME : option jsstring;
  env_APP_DESCRIPTION : option jsstring
}.

(** [v || d] on an environment variable: unset and empty both give [d]. *)
Definition or_default (v : option jsstring) (d : jsstring) : jsstring :=
  match v with
  | Some (c :: r) => c :: r
  | _ => d
  end.

Definition APP_NAME (env : environment) : jsstring :=
  or_default (env_APP_NAME env) (lit "Todo SaaS").

Definition APP_DESCRIPTION (env : environment) : jsstring :=
  or_default (env_APP_DESCRIPTION env)
    (lit "Simple, clean, and efficient task management").

(** What a handler sends: [res.json(todos)], [res.json(newTodo)],
    [res.json({ error })], the health object, or [res.send()]. *)
Inductive payload : Type :=
  | Todos (l : list todo)
  | Created (t : todo)
  | Error (error : string)
  | Health (status : string) (timestamp app description : jsstring)
  | Empty.

Record response : Type := {
  status : Z;
  body : payload
}.

(** [req.body] after [express.json()]: the parsed JSON text, an object or
    an array (the middleware refuses other JSON texts before the handler
    runs, and leaves the empty object when the request has no JSON body). *)
Inductive request_body : Type :=
  | ObjectBody (props : list (jsstring * json))
  | ArrayBody (elems : list json).

(** [const { text } = req.body] *)
Definition body_text (b : request_body) : jsval :=
  match b with
  | ObjectBody props => get_prop (lit "text") props
  | ArrayBody _ => None
  end.

(** The string held by a value whose [typeof] is ["string"]. *)
Definition string_of (v : jsval) : jsstring :=
  match v with
  | Some (JString s) => s
  | _ => []
  end.

Inductive request : Type :=
  | GET_todos
  | POST_todos (b : request_body)
  | DELETE_todos_id (param : jsstring)
  | GET_health.

Definition handler := store -> response * store.

(** [app.get('/api/todos')] *)
Definition get_todos : handler := fun s =>
  ({| status := 200; body := Todos (todos s) |}, s).

(** [app.post('/api/todos')]; [now] is [new Date().toISOString()]. *)
Definition post_todos (now : jsstring) (b : request_body) : handler := fun s =>
  let text := body_text b in
  if negb (truthy text)
     || negb (String.eqb (typeof text) "string")
     || jsstring_eqb (trim (string_of text)) []
  then
    ({| status := 400;
        body := Error "Text is required and must be a non-empty string" |}, s)
  else
    let newTodo :=
      {| id := nextId s; text := trim (string_of text); createdAt := now |} in
    ({| status := 201; body := Created newTodo |},
     {| todos := push (todos s) newTodo; nextId := nextId s + 1 |}).

(** [app.delete('/api/todos/:id')] *)
Definition delete_todos_id (param : jsstring) : handler := fun s =>
  match parseInt param with
  | None => ({| status := 400; body := Error "Invalid todo ID" |}, s)
  | Some n =>
      let todoIndex := findIndex (fun todo => id todo =? n) (todos s) in
      if todoIndex =? -1 then
        ({| status := 404; body := Error "Todo not found" |}, s)
      else
        ({| status := 204; body := Empty |},
         {| todos := splice todoIndex 1 (todos s); nextId := nextId s |})
  end.

(** [app.get('/api/health')] *)
Definition get_health (env : environment) (now : jsstring) : handler := fun s =>
  ({| status := 200;
      body := Health "OK" now (APP_NAME env) (APP_DESCRIPTION env) |}, s).

(** Routing of one request, with the clock reading taken while it is served. *)
Definition handle (env : environment) (now : jsstring) (req : request)
  : handler :=
  match req with
  | GET_todos => get_todos
  | POST_todos b => post_todos now b
  | DELETE_todos_id param => delete_todos_id param
  | GET_health => get_health env now
  end.

(** A request together with the clock reading of its handler. *)
Definition event : Type := jsstring * request.

(** The server serves requests one at a time, each to completion. *)
Fixpoint run (env : environment) (evs : list event) (s : store)
  : list response * store :=
  match evs with
  | [] => ([], s)
  | (now, req) :: rest =>
      let (resp, s1) := handle env now req s in
      let (resps, s2) := run env rest s1 in
      (resp :: resps, s2)
  end.

(** The store after serving [evs] from process start. *)
Definition store_after (env : environment) (evs : list event) : store :=
  snd (run env evs initial_store).

Definition responses_of (env : environment) (evs : list event)
  : list response :=
  fst (run env evs initial_store).

(** The records created, and the ids assigned, by a list of responses. *)
Definition created_by (r : response) : list todo :=
  match body r with
  | Created t => [t]
  | _ => []
  end.

Definition created_records (resps : list response) : list todo :=
  flat_map created_by resps.

Definition issued_ids (resps : list response) : list Z :=
  map id (created_records resps).

(** ** Vocabulary of the properties *)

Definition is_decimal_digit (c : code_unit) : bool :=
  ((48 <=? c) && (c <=? 57))%N.

Definition is_hex_digit (c : code_unit) : bool :=
  is_decimal_digit c
  || ((97 <=? c) && (c <=? 102))%N || ((65 <=? c) && (c <=? 70))%N.

Definition is_sign (c : code_unit) : bool := ((c =? 45) || (c =? 43))%N.

(** The path identifier denotes an integer: an optional sign followed by
    one or more decimal digits, and nothing else. *)
Definition denotes_integer (p : jsstring) : bool :=
  let digits :=
    match p with
    | c :: r => if is_sign c then r else p
    | [] => p
    end in
  negb (jsstring_eqb digits []) && forallb is_decimal_digit digits.

(** The text after white space and sign starts a number: a decimal digit,
    or [0x] or [0X] followed by a hexadecimal digit. *)
Definition starts_number (s : jsstring) : bool :=
  match s with
  | c0 :: c1 :: r =>
      if ((c0 =? 48) && ((c1 =? 120) || (c1 =? 88)))%N then
        match r with
        | h :: _ => is_hex_digit h
        | [] => false
        end
      else is_decimal_digit c0
  | [c0] => is_decimal_digit c0
  | [] => false
  end.

(** The path identifier has a numeric prefix: optional white space, an
    optional sign, then the start of a number. *)
Fixpoint has_numeric_prefix (p : jsstring) : bool :=
  match p with
  | c :: r =>
      if is_white_space c then has_numeric_prefix r
      else if is_sign c then starts_number r
      else starts_number p
  | [] => false
  end.

Definition starts_with (P : code_unit -> bool) (s : jsstring) : bool :=
  match s with
  | c :: _ => P c
  | [] => false
  end.

(** The unsigned part of [parseInt]: radix choice and digits. *)
Definition unsigned_digits (s : jsstring) : list Z :=
  let (R, S2) := strip_hex_prefix s in digit_prefix R S2.

(** The decimal writing of an integer, as a client puts an id in the path
    ([`${API_BASE_URL}/todos/${id}`] in the front end): the decimal digits,
    most significant first, after a minus sign for a negative number. *)
Fixpoint decimal_digits (fuel : nat) (n : Z) (acc : jsstring) : jsstring :=
  match fuel with
  | O => acc
  | S f =>
      let acc' := Z.to_N (48 + n mod 10) :: acc in
      if n / 10 =? 0 then acc' else decimal_digits f (n / 10) acc'
  end.

Definition decimal (z : Z) : jsstring :=
  let m := Z.abs z in
  let ds := decimal_digits (S (Z.to_nat (Z.log2 m))) m [] in
  if z <? 0 then 45%N :: ds else ds.

Definition digit_char (d : Z) : code_unit := Z.to_N (48 + d).

Definition is_digit (d : Z) : Prop := 0 <= d < 10.

(** The [text] of a request body that the create rule rejects: absent, not
    a string, or a string that trims to the empty string. *)
Inductive bad_text : jsval -> Prop :=
  | text_absent : bad_text None
  | text_not_a_string v : (forall str, v <> JString str) -> bad_text (Some v)
  | text_blank str : trim str = [] -> bad_text (Some (JString str)).

(** [l1] is [l2] with some elements taken out, the others in place. *)
Inductive subsequence {A : Type} : list A -> list A -> Prop :=
  | sub_nil : subsequence [] []
  | sub_keep x l1 l2 : subsequence l1 l2 -> subsequence (x :: l1) (x :: l2)
  | sub_drop x l1 l2 : subsequence l1 l2 -> subsequence l1 (x :: l2).

Definition starts_with_space (s : jsstring) : bool :=
  match s with
  | c :: _ => is_white_space c
  | [] => false
  end.

Definition ends_with_space (s : jsstring) : bool := starts_with_space (rev s).

(** A stored text: not empty, no white space at either end. *)
Definition tidy_text (s : jsstring) : Prop :=
  s <> [] /\ starts_with_space s = false /\ ends_with_space s = false.

Definition ids (s : store) : list Z := map id (todos s).

(** The invariant of the store: ids in increasing order of position, all
    of them at least 1 and below the counter, and every text tidy. *)
Record store_ok (s : store) : Prop := {
  ok_sorted : StronglySorted Z.lt (ids s);
  ok_range : Forall (fun i => 1 <= i < nextId s) (ids s);
  ok_counter : 1 <= nextId s;
  ok_text : Forall (fun t => tidy_text (text t)) (todos s)
}.

Definition bad_request (error : string) : response :=
  {| status := 400; body := Error error |}.

Definition not_found : response :=
  {| status := 404; body := Error "Todo not found" |}.

Definition no_content : response := {| status := 204; body := Empty |}.

(** A create request with the object [{ text: <string> }] as body. *)
Definition post_text (s : string) : request :=
  POST_todos (ObjectBody [(lit "text", JString (lit s))]).

(** An environment with neither variable set, and a clock reading. *)
Definition default_env : environment :=
  {| env_APP_NAME := None; env_APP_DESCRIPTION := None |}.

Definition noon : jsstring := lit "2024-01-01T12:00:00.000Z".

(** ** The front end

    The component of App.tsx keeps the list shown, the text typed and two
    messages in React state, and talks to the server with [fetch].  Its two
    handlers that change the list, [addTodo] and [deleteTodo], are embedded
    as functions on that state; the outcome of [await fetch(...)] is an
    argument.  One handler runs at a time, so the [todos] a handler closes
    over is the current list.  The list holds whatever [response.json()]
    returned: the [Todo] type of the source is not checked at run time. *)

Module App.

(** The outcome of [await fetch(...)]: a response, or a rejection with the
    message of the error thrown. *)
Inductive fetched : Type :=
  | Resolved (r : response)
  | Rejected (message : jsstring).

Record state : Type := {
  todos : list payload;
  newTodo : jsstring;
  loading : bool;
  error : option jsstring;
  success : option jsstring
}.

Definition setTodos (v : list payload) (st : state) : state :=
  {| todos := v; newTodo := newTodo st; loading := loading st;
     error := error st; success := success st |}.

Definition setNewTodo (v : jsstring) (st : state) : state :=
  {| todos := todos st; newTodo := v; loading := loading st;
     error := error st; success := success st |}.

Definition setError (v : option jsstring) (st : state) : state :=
  {| todos := todos st; newTodo := newTodo st; loading := loading st;
     error := v; success := success st |}.

Definition setSuccess (v : option jsstring) (st : state) : state :=
  {| todos := todos st; newTodo := newTodo st; loading := loading st;
     error := error st; success := v |}.

(** [response.ok] *)
Definition ok (r : response) : bool :=
  (200 <=? status r) && (status r <=? 299).

(** [todo.id] of an item of the list; [None] is [undefined]. *)
Definition item_id (item : payload) : option Z :=
  match item with
  | Created t => Some (id t)
  | _ => None
  end.

(** [todo.id !== id] *)
Definition id_differs (n : Z) (item : payload) : bool :=
  match item_id item with
  | Some m => negb (m =? n)
  | None => true
  end.

(** [addTodo] up to [await fetch]: the request sent, or none when the text
    typed trims to the empty string. *)
Definition addTodo_request (st : state) : option request :=
  if jsstring_eqb (trim (newTodo st)) [] then None
  else
    Some (POST_todos (ObjectBody [(lit "text", JString (trim (newTodo st)))])).

(** [addTodo] after [await fetch].  [json_error] is the message of the
    error [response.json()] throws on an empty body. *)
Definition addTodo_settle (json_error : jsstring) (st : state) (f : fetched)
  : state :=
  match f with
  | Rejected message => setError (Some message) st
  | Resolved r =>
      if negb (ok r) then
        match body r with
        | Empty => setError (Some json_error) st
        | Error e =>
            setError
              (Some (if jsstring_eqb (lit e) [] then lit "Failed to add todo"
                     else lit e)) st
        | _ => setError (Some (lit "Failed to add todo")) st
        end
      else
        match body r with
        | Empty => setError (Some json_error) st
        | newTodoItem =>
            setSuccess (Some (lit "Todo added successfully!"))
              (setNewTodo [] (setTodos (todos st ++ [newTodoItem]) st))
        end
  end.

Definition addTodo (json_error : jsstring) (fetch : request -> fetched)
  (st : state) : state :=
  match addTodo_request st with
  | None => setError (Some (lit "Please enter a todo item")) st
  | Some req =>
      addTodo_settle json_error (setSuccess None (setError None st)) (fetch req)
  end.

(** [deleteTodo(id)]: the request sent. *)
Definition deleteTodo_request (n : Z) : request := DELETE_todos_id (decimal n).

Definition deleteTodo_settle (n : Z) (st : state) (f : fetched) : state :=
  match f with
  | Rejected message => setError (Some message) st
  | Resolved r =>
      if negb (ok r) then setError (Some (lit "Failed to delete todo")) st
      else
        setSuccess (Some (lit "Todo deleted successfully!"))
          (setTodos (filter (id_differs n) (todos st)) st)
  end.

Definition deleteTodo (fetch : request -> fetched) (n : Z) (st : state)
  : state :=
  deleteTodo_settle n (setSuccess None (setError None st))
    (fetch (deleteTodo_request n)).

End App.

(** ** The front end in front of the server *)

(** [fetch] answered by the server in store [s]. *)
Definition served (env : environment) (now : jsstring) (s : store)
  : request -> App.fetched :=
  fun req => App.Resolved (fst (handle env now req s)).

(** One [addTodo] with its request, if any, served: the state of the
    component and the store of the server afterwards. *)
Definition addTodo_served (json_error : jsstring) (env : environment)
  (now : jsstring) (st : App.state) (s : store) : App.state * store :=
  (App.addTodo json_error (served env now s) st,
   match App.addTodo_request st with
   | Some req => snd (handle env now req s)
   | None => s
   end).

Definition deleteTodo_served (env : environment) (now : jsstring) (n : Z)
  (st : App.state) (s : store) : App.state * store :=
  (App.deleteTodo (served env now s) n st,
   snd (handle env now (App.deleteTodo_request n) s)).

(** The list shown is the list stored. *)
Definition mirrors (st : App.state) (s : store) : Prop :=
  App.todos st = map Created (todos s).

(** ** Vocabulary of the further properties *)

(** The request did not succeed: [fetch] rejected, or the answer is not
    [ok]. *)
Definition failed (f : App.fetched) : bool :=
  match f with
  | App.Rejected _ => true
  | App.Resolved r => negb (App.ok r)
  end.

Definition is_error (b : payload) : bool :=
  match b with
  | Error _ => true
  | _ => false
  end.

(** How many of the responses carry status [c]. *)
Definition count_status (c : Z) (resps : list response) : Z :=
  Z.of_nat (List.length (filter (fun r => status r =? c) resps)).

(** The id a request removed, read off the request and its response. *)
Definition deleted_by (e : event) (r : response) : list Z :=
  match snd e with
  | DELETE_todos_id p =>
      if status r =? 204 then
        match parseInt p with
        | Some n => [n]
        | None => []
        end
      else []
  | _ => []
  end.

Definition deleted_ids (evs : list event) (resps : list response) : list Z :=
  flat_map (fun er => deleted_by (fst er) (snd er)) (combine evs resps).

(** The record has not been removed. *)
Definition survives (deleted : list Z) (t : todo) : bool :=
  negb (existsb (Z.eqb (id t)) deleted).

(** ** Facts about the runtime functions *)

Module JSFacts.

Section ArrayFacts.
Context {A : Type}.
Implicit Types (p : A -> bool) (l : list A).

Lemma findIndex_from_shift p l i :
  findIndex_from p l i = -1 /\ forallb (fun x => negb (p x)) l = true
  \/ exists l1 x l2,
       l = l1 ++ x :: l2 /\ p x = true
       /\ forallb (fun y => negb (p y)) l1 = true
       /\ findIndex_from p l i = i + Z.of_nat (List.length l1).
Proof.
  revert i; induction l as [|a l IH]; intros i; cbn [findIndex_from forallb].
  - left; split; reflexivity.
  - destruct (p a) eqn:Ha.
    + right. exists [], a, l. cbn. repeat split; auto; lia.
    + destruct (IH (i + 1)) as [[E F]|(l1 & x & l2 & E & Px & F & Ix)].
      * left. split; [exact E|]. cbn. exact F.
      * right. exists (a :: l1), x, l2. subst l. cbn [app forallb List.length].
        rewrite Ha, F, Ix. repeat split; auto. lia.
Qed.

(** [findIndex] answers -1 exactly when no element satisfies the test. *)
Lemma findIndex_none p l :
  findIndex p l = -1 <-> forall x, In x l -> p x = false.
Proof.
  unfold findIndex.
  destruct (findIndex_from_shift p l 0)
    as [[E F]|(l1 & x & l2 & E & Px & F & Ix)].
  - split; [intros _ x Hx|intros _; exact E].
    rewrite forallb_forall in F. apply F in Hx.
    now apply negb_true_iff in Hx.
  - split.
    + intros E1. lia.
    + intros H. rewrite (H x) in Px; [discriminate|].
      subst l. apply in_or_app. right. left. reflexivity.
Qed.

(** Otherwise it is the position of the first element that does. *)
Lemma findIndex_some p l :
  findIndex p l <> -1 ->
  exists l1 x l2,
    l = l1 ++ x :: l2 /\ p x = true
    /\ (forall y, In y l1 -> p y = false)
    /\ findIndex p l = Z.of_nat (List.length l1).
Proof.
  unfold findIndex. intros N.
  destruct (findIndex_from_shift p l 0)
    as [[E F]|(l1 & x & l2 & E & Px & F & Ix)]; [contradiction|].
  exists l1, x, l2. repeat split; auto.
  intros y Hy. rewrite forallb_forall in F. apply F in Hy.
  now apply negb_true_iff in Hy.
Qed.

(** Removing one element at the position of [x]. *)
Lemma splice_one (l1 l2 : list A) (x : A) :
  splice (Z.of_nat (List.length l1)) 1 (l1 ++ x :: l2) = l1 ++ l2.
Proof.
  unfold splice.
  rewrite length_app. cbn [List.length].
  set (n := List.length l1). set (m := List.length l2).
  replace (Z.of_nat n <? 0) with false by (symmetry; apply Z.ltb_ge; lia).
  replace (Z.min (Z.of_nat n) (Z.of_nat (n + S m))) with (Z.of_nat n) by lia.
  replace (Z.min (Z.max 1 0) (Z.of_nat (n + S m) - Z.of_nat n)) with 1 by lia.
  rewrite Nat2Z.id.
  replace (Z.to_nat (Z.of_nat n + 1)) with (S n) by lia.
  subst n. rewrite firstn_app, firstn_all, Nat.sub_diag. cbn [firstn].
  rewrite app_nil_r. f_equal.
  rewrite skipn_app.
  replace (S (List.length l1) - List.length l1)%nat with 1%nat by lia.
  rewrite skipn_all2 by lia. reflexivity.
Qed.
End ArrayFacts.

End JSFacts.

Module StringFacts.

Lemma trimStart_no_leading s : starts_with_space (trimStart s) = false.
Proof.
  induction s as [|c r IH]; cbn [trimStart]; [reflexivity|].
  destruct (is_white_space c) eqn:Hc; [exact IH|]. cbn. exact Hc.
Qed.

Lemma trimStart_fixed s : starts_with_space s = false -> trimStart s = s.
Proof.
  destruct s as [|c r]; cbn; [reflexivity|]. intros ->. reflexivity.
Qed.

(** What [trimStart] removes is white space. *)
Lemma trimStart_split s :
  exists w, s = w ++ trimStart s /\ forallb is_white_space w = true.
Proof.
  induction s as [|c r (w & E & F)]; cbn [trimStart].
  - exists []. split; reflexivity.
  - destruct (is_white_space c) eqn:Hc.
    + exists (c :: w). cbn. rewrite Hc, F. split; [now f_equal|reflexivity].
    + exists []. split; reflexivity.
Qed.

Lemma trimStart_snoc s c :
  is_white_space c = false -> trimStart (s ++ [c]) = trimStart s ++ [c].
Proof.
  intros Hc. induction s as [|a r IH]; cbn [app trimStart].
  - rewrite Hc. reflexivity.
  - destruct (is_white_space a); [exact IH|reflexivity].
Qed.

Lemma trimEnd_cons_keep c r :
  is_white_space c = false -> trimEnd (c :: r) = c :: trimEnd r.
Proof.
  intros Hc. unfold trimEnd. cbn [rev].
  rewrite trimStart_snoc by exact Hc.
  rewrite rev_app_distr. reflexivity.
Qed.

Lemma trimEnd_no_trailing s : ends_with_space (trimEnd s) = false.
Proof.
  unfold ends_with_space, trimEnd. rewrite rev_involutive.
  apply trimStart_no_leading.
Qed.

Lemma trimEnd_no_leading s :
  starts_with_space s = false -> starts_with_space (trimEnd s) = false.
Proof.
  destruct s as [|c r]; [reflexivity|]. cbn [starts_with_space]. intros Hc.
  rewrite trimEnd_cons_keep by exact Hc. exact Hc.
Qed.

(** The result of [trim] neither starts nor ends with white space. *)
Lemma trim_no_surrounding s :
  starts_with_space (trim s) = false /\ ends_with_space (trim s) = false.
Proof.
  unfold trim. split.
  - apply trimEnd_no_leading, trimStart_no_leading.
  - apply trimEnd_no_trailing.
Qed.

(** What [trim] removes is white space on either side. *)
Lemma trim_split s :
  exists w1 w2,
    s = w1 ++ trim s ++ w2
    /\ forallb is_white_space w1 = true /\ forallb is_white_space w2 = true.
Proof.
  destruct (trimStart_split s) as (w1 & E1 & F1).
  destruct (trimStart_split (rev (trimStart s))) as (w2 & E2 & F2).
  exists w1, (rev w2). unfold trim, trimEnd. repeat split.
  - rewrite <- rev_app_distr, <- E2, rev_involutive. exact E1.
  - exact F1.
  - rewrite forallb_forall in *. intros x Hx. apply F2. now apply in_rev.
Qed.

Lemma trim_idempotent s : trim (trim s) = trim s.
Proof.
  destruct (trim_no_surrounding s) as [Hs He].
  unfold trim at 1. rewrite (trimStart_fixed _ Hs).
  unfold trimEnd. unfold ends_with_space in He.
  rewrite (trimStart_fixed _ He). apply rev_involutive.
Qed.

End StringFacts.

Module ParseFacts.

Lemma digit_char_spec d :
  is_digit d ->
  digit_value 10 (digit_char d) = Some d
  /\ is_white_space (digit_char d) = false
  /\ (digit_char d =? 45)%N = false /\ (digit_char d =? 43)%N = false
  /\ (digit_char d =? 120)%N = false /\ (digit_char d =? 88)%N = false.
Proof.
  intros H.
  assert (C : d = 0 \/ d = 1 \/ d = 2 \/ d = 3 \/ d = 4 \/ d = 5 \/ d = 6
              \/ d = 7 \/ d = 8 \/ d = 9) by (unfold is_digit in H; lia).
  repeat (destruct C as [->|C]); try subst d; vm_compute; repeat split.
Qed.

Lemma digit_prefix_digits ds :
  Forall is_digit ds -> digit_prefix 10 (map digit_char ds) = ds.
Proof.
  induction 1 as [|d ds Hd _ IH]; cbn [map digit_prefix]; [reflexivity|].
  destruct (digit_char_spec d Hd) as (-> & _). now rewrite IH.
Qed.

Lemma radix_value_snoc R ds d :
  radix_value R (ds ++ [d]) = radix_value R ds * R + d.
Proof. unfold radix_value. rewrite fold_left_app. reflexivity. Qed.

(** With enough fuel, [decimal_digits] puts the decimal digits of [n] in
    front of the accumulator. *)
Lemma decimal_digits_spec f :
  forall n acc,
    0 <= n < 2 ^ Z.of_nat f -> (0 < f)%nat ->
    exists ds,
      ds <> [] /\ Forall is_digit ds /\ radix_value 10 ds = n
      /\ decimal_digits f n acc = map digit_char ds ++ acc.
Proof.
  induction f as [|f IH]; intros n acc Hn Hf; [lia|].
  cbn [decimal_digits].
  assert (Hd : is_digit (n mod 10)) by (unfold is_digit; apply Z.mod_pos_bound; lia).
  destruct (n / 10 =? 0) eqn:Hq.
  - apply Z.eqb_eq in Hq. exists [n mod 10]. repeat split.
    + discriminate.
    + constructor; [exact Hd|constructor].
    + unfold radix_value. cbn. pose proof (Z.div_mod n 10). lia.
  - apply Z.eqb_neq in Hq.
    assert (Hq1 : 1 <= n / 10) by (pose proof (Z.div_pos n 10); lia).
    assert (Hq2 : n / 10 < 2 ^ Z.of_nat f).
    { apply Z.div_lt_upper_bound; [lia|].
      rewrite Nat2Z.inj_succ, Z.pow_succ_r in Hn by lia. lia. }
    assert (Hf' : (0 < f)%nat).
    { destruct f; [cbn in Hq2; lia|lia]. }
    destruct (IH (n / 10) (Z.to_N (48 + n mod 10) :: acc)) as (ds & Hne & Hall & Hv & E);
      [lia|exact Hf'|].
    exists (ds ++ [n mod 10]). repeat split.
    + destruct ds; discriminate.
    + apply Forall_app. split; [exact Hall|]. constructor; [exact Hd|constructor].
    + rewrite radix_value_snoc, Hv. pose proof (Z.div_mod n 10). lia.
    + rewrite E, map_app, <- app_assoc. reflexivity.
Qed.

Lemma strip_hex_prefix_digits ds :
  Forall is_digit ds ->
  strip_hex_prefix (map digit_char ds) = (10, map digit_char ds).
Proof.
  intros H. destruct H as [|d0 ds H0 H]; [reflexivity|].
  destruct H as [|d1 ds H1 H]; [reflexivity|].
  cbn [map strip_hex_prefix].
  destruct (digit_char_spec d1 H1) as (_ & _ & _ & _ & -> & ->).
  rewrite andb_false_r. reflexivity.
Qed.

(** [parseInt] reads back a run of decimal digits, with or without a
    minus sign in front. *)
Lemma parseInt_digits ds :
  ds <> [] -> Forall is_digit ds ->
  parseInt (map digit_char ds) = Some (radix_value 10 ds)
  /\ parseInt (45%N :: map digit_char ds) = Some (- radix_value 10 ds).
Proof.
  intros Hne Hall.
  assert (Hp := digit_prefix_digits ds Hall).
  assert (Hx := strip_hex_prefix_digits ds Hall).
  destruct ds as [|d ds]; [contradiction|].
  pose proof (Forall_inv Hall) as Hd.
  destruct (digit_char_spec d Hd) as (_ & Hw & H45 & H43 & _).
  split; unfold parseInt.
  - cbn [map trimStart] in *. rewrite Hw. cbn [strip_sign]. rewrite H45, H43.
    rewrite Hx, Hp. f_equal. lia.
  - cbn [trimStart]. change (is_white_space 45%N) with false.
    cbn [strip_sign]. change (45 =? 45)%N with true. cbv iota.
    rewrite Hx, Hp. f_equal; lia.
Qed.

(** Every integer written in decimal is read back by [parseInt]. *)
Lemma parseInt_decimal z : parseInt (decimal z) = Some z.
Proof.
  unfold decimal.
  destruct (decimal_digits_spec (S (Z.to_nat (Z.log2 (Z.abs z)))) (Z.abs z) [])
    as (ds & Hne & Hall & Hv & E).
  - split; [lia|].
    rewrite Nat2Z.inj_succ, Z2Nat.id by apply Z.log2_nonneg.
    destruct (Z.eq_dec (Z.abs z) 0) as [->|Hz]; [cbn; lia|].
    apply Z.log2_spec. lia.
  - lia.
  - rewrite E, app_nil_r.
    destruct (parseInt_digits ds Hne Hall) as [P N].
    destruct (z <? 0) eqn:Hz.
    + apply Z.ltb_lt in Hz. rewrite N. f_equal. lia.
    + apply Z.ltb_ge in Hz. rewrite P. f_equal. lia.
Qed.

(** The decimal writing of an integer denotes an integer. *)
Lemma decimal_denotes_integer z : denotes_integer (decimal z) = true.
Proof.
  unfold decimal.
  destruct (decimal_digits_spec (S (Z.to_nat (Z.log2 (Z.abs z)))) (Z.abs z) [])
    as (ds & Hne & Hall & _ & E).
  - split; [lia|].
    rewrite Nat2Z.inj_succ, Z2Nat.id by apply Z.log2_nonneg.
    destruct (Z.eq_dec (Z.abs z) 0) as [->|Hz]; [cbn; lia|].
    apply Z.log2_spec. lia.
  - lia.
  - rewrite E, app_nil_r.
    assert (Hd : forallb is_decimal_digit (map digit_char ds) = true).
    { clear -Hall. induction Hall as [|d ds Hd _ IH]; [reflexivity|].
      cbn [map forallb]. rewrite IH, andb_true_r.
      assert (C : d = 0 \/ d = 1 \/ d = 2 \/ d = 3 \/ d = 4 \/ d = 5
                  \/ d = 6 \/ d = 7 \/ d = 8 \/ d = 9)
        by (unfold is_digit in Hd; lia).
      repeat (destruct C as [->|C]); try subst d; reflexivity. }
    destruct ds as [|d ds]; [contradiction|].
    assert (Hs : is_sign (digit_char d) = false).
    { destruct (digit_char_spec d (Forall_inv Hall)) as (_ & _ & H45 & H43 & _).
      unfold is_sign. now rewrite H45, H43. }
    unfold denotes_integer.
    destruct (z <? 0).
    + change (is_sign 45%N) with true. cbv iota. now rewrite Hd.
    + cbn [map] in *. rewrite Hs, Hd. reflexivity.
Qed.

End ParseFacts.

Module NaNFacts.

(** Case analysis on the comparisons of code units in the goal. *)
Ltac case_compare :=
  repeat
    (match goal with
     | |- context [N.leb ?a ?b] => destruct (N.leb_spec a b)
     | |- context [Z.ltb ?a ?b] => destruct (Z.ltb_spec a b)
     end; cbn [andb orb]).

Lemma digit_value_10 c :
  digit_value 10 c = None <-> is_decimal_digit c = false.
Proof.
  unfold digit_value, is_decimal_digit. case_compare;
    split; intros; try discriminate; try reflexivity; lia.
Qed.

Lemma digit_value_16 c :
  digit_value 16 c = None <-> is_hex_digit c = false.
Proof.
  unfold digit_value, is_hex_digit, is_decimal_digit. case_compare;
    split; intros; try discriminate; try reflexivity; lia.
Qed.

Lemma digit_prefix_nil R P s :
  (forall c, digit_value R c = None <-> P c = false) ->
  digit_prefix R s = [] <-> starts_with P s = false.
Proof.
  intros H. destruct s as [|c r]; cbn [digit_prefix starts_with]; [tauto|].
  specialize (H c). destruct (digit_value R c) as [d|].
  - split; [discriminate|]. intros E. apply H in E. discriminate.
  - split; [intros _; now apply H|reflexivity].
Qed.

Lemma parseInt_unfold p :
  parseInt p =
    match unsigned_digits (snd (strip_sign (trimStart p))) with
    | [] => None
    | _ :: _ =>
        Some (fst (strip_sign (trimStart p))
              * radix_value (fst (strip_hex_prefix (snd (strip_sign (trimStart p)))))
                  (unsigned_digits (snd (strip_sign (trimStart p)))))
    end.
Proof.
  unfold parseInt, unsigned_digits.
  destruct (strip_sign (trimStart p)) as [sign S1]. cbn [fst snd].
  destruct (strip_hex_prefix S1) as [R S2]. cbn [fst].
  destruct (digit_prefix R S2); reflexivity.
Qed.

Lemma unsigned_digits_nil s :
  unsigned_digits s = [] <-> starts_number s = false.
Proof.
  unfold unsigned_digits.
  destruct s as [|c0 [|c1 r]]; cbn [strip_hex_prefix starts_number].
  - cbn. tauto.
  - apply (digit_prefix_nil 10 is_decimal_digit [c0] digit_value_10).
  - destruct ((c0 =? 48) && ((c1 =? 120) || (c1 =? 88)))%N.
    + apply (digit_prefix_nil 16 is_hex_digit r digit_value_16).
    + apply (digit_prefix_nil 10 is_decimal_digit (c0 :: c1 :: r) digit_value_10).
Qed.

Lemma has_numeric_prefix_trimStart p :
  has_numeric_prefix p = starts_number (snd (strip_sign (trimStart p))).
Proof.
  induction p as [|c r IH]; cbn [has_numeric_prefix trimStart]; [reflexivity|].
  destruct (is_white_space c); [exact IH|].
  cbn [strip_sign]. unfold is_sign.
  destruct (c =? 45)%N; [reflexivity|].
  destruct (c =? 43)%N; reflexivity.
Qed.

(** [parseInt] answers [NaN] exactly on the identifiers without a numeric
    prefix. *)
Lemma parseInt_NaN_iff p :
  parseInt p = None <-> has_numeric_prefix p = false.
Proof.
  rewrite parseInt_unfold, has_numeric_prefix_trimStart.
  rewrite <- unsigned_digits_nil.
  destruct (unsigned_digits (snd (strip_sign (trimStart p)))).
  - tauto.
  - split; discriminate.
Qed.

(** An identifier that denotes an integer has a numeric prefix. *)
Lemma denotes_integer_numeric_prefix p :
  denotes_integer p = true -> has_numeric_prefix p = true.
Proof.
  assert (D : forall c, is_decimal_digit c = true ->
                        is_white_space c = false /\ is_sign c = false
                        /\ (c =? 120)%N = false /\ (c =? 88)%N = false).
  { intros c. unfold is_decimal_digit, is_white_space, is_sign.
    intros [H1 H2]%andb_true_iff. apply N.leb_le in H1, H2.
    repeat match goal with
           | |- context [N.eqb ?a ?b] => destruct (N.eqb_spec a b); [lia|]
           | |- context [N.leb ?a ?b] => destruct (N.leb_spec a b)
           end; cbn; try lia; repeat split. }
  assert (S : forall s, s <> [] -> forallb is_decimal_digit s = true ->
                        starts_number s = true).
  { intros [|c0 [|c1 r]] Hne Hall; [contradiction|..];
      cbn [forallb starts_number] in *.
    - now apply andb_true_iff in Hall.
    - apply andb_true_iff in Hall as [H0 [H1 _]%andb_true_iff].
      destruct (D c1 H1) as (_ & _ & -> & ->). rewrite andb_false_r. exact H0. }
  unfold denotes_integer. intros [Hne Hall]%andb_true_iff.
  apply negb_true_iff in Hne. unfold jsstring_eqb in Hne.
  destruct p as [|c r]; [discriminate|]. cbn [has_numeric_prefix].
  cbv beta iota in Hne, Hall.
  destruct (is_sign c) eqn:Hs.
  - assert (Hw : is_white_space c = false).
    { unfold is_sign in Hs. apply orb_true_iff in Hs as [E|E];
        apply N.eqb_eq in E; subst c; reflexivity. }
    rewrite Hw. apply S; [|exact Hall].
    intros ->. discriminate Hne.
  - pose proof Hall as Hall'. cbn [forallb] in Hall'.
    apply andb_true_iff in Hall' as [Hc _].
    destruct (D c Hc) as (-> & _). apply S; [discriminate|exact Hall].
Qed.

End NaNFacts.

(** ** Facts about lists of ids and subsequences *)

Module ListFacts.

Lemma sorted_NoDup (l : list Z) : StronglySorted Z.lt l -> NoDup l.
Proof.
  induction 1 as [|a l _ IH Hall]; constructor; [|exact IH].
  intros Hin. rewrite Forall_forall in Hall. apply Hall in Hin. lia.
Qed.

Lemma sorted_snoc (l : list Z) (n : Z) :
  StronglySorted Z.lt l -> Forall (fun i => i < n) l ->
  StronglySorted Z.lt (l ++ [n]).
Proof.
  induction 1 as [|a l _ IH Hall]; intros Hn; cbn [app].
  - repeat constructor.
  - inversion Hn as [|? ? Han Hn']; subst. constructor.
    + apply IH, Hn'.
    + apply Forall_app. split; [exact Hall|]. constructor; [exact Han|constructor].
Qed.

Section Subsequence.
Context {A : Type}.
Implicit Types l : list A.

Lemma subsequence_refl l : subsequence l l.
Proof. induction l; constructor; assumption. Qed.

Lemma subsequence_trans l1 l2 l3 :
  subsequence l1 l2 -> subsequence l2 l3 -> subsequence l1 l3.
Proof.
  intros H12 H23. revert l1 H12.
  induction H23 as [|x l2 l3 _ IH|x l2 l3 _ IH]; intros l1 H12.
  - exact H12.
  - inversion H12; subst; constructor; apply IH; assumption.
  - constructor. apply IH, H12.
Qed.

Lemma subsequence_app l1 l2 l :
  subsequence l1 l2 -> subsequence (l1 ++ l) (l2 ++ l).
Proof.
  induction 1; cbn [app]; [apply subsequence_refl|constructor..]; assumption.
Qed.

Lemma subsequence_remove l1 l2 (x : A) : subsequence (l1 ++ l2) (l1 ++ x :: l2).
Proof.
  induction l1; cbn [app]; constructor; [apply subsequence_refl|assumption].
Qed.

Lemma subsequence_In l1 l2 (x : A) :
  subsequence l1 l2 -> In x l1 -> In x l2.
Proof.
  induction 1; cbn [In]; intuition.
Qed.

Lemma subsequence_map {B : Type} (f : A -> B) l1 l2 :
  subsequence l1 l2 -> subsequence (map f l1) (map f l2).
Proof. induction 1; cbn [map]; constructor; assumption. Qed.
End Subsequence.

(** A subsequence of a strictly increasing list is strictly increasing. *)
Lemma subsequence_sorted (l1 l2 : list Z) :
  subsequence l1 l2 -> StronglySorted Z.lt l2 -> StronglySorted Z.lt l1.
Proof.
  induction 1 as [|x l1 l2 Hs IH|x l1 l2 Hs IH]; intros H2.
  - constructor.
  - inversion H2 as [|? ? Hl Hall]; subst. constructor; [apply IH, Hl|].
    rewrite Forall_forall in *. intros y Hy. apply Hall.
    eapply subsequence_In; eassumption.
  - inversion H2; subst. apply IH. assumption.
Qed.

End ListFacts.

(** ** Facts about the handlers *)

Module HandlerFacts.
Import JSFacts StringFacts ListFacts.

Lemma jsstring_eqb_eq a b : jsstring_eqb a b = true <-> a = b.
Proof.
  unfold jsstring_eqb. destruct (list_eq_dec N.eq_dec a b); split;
    congruence.
Qed.

Lemma jsstring_eqb_neq a b : jsstring_eqb a b = false <-> a <> b.
Proof.
  unfold jsstring_eqb. destruct (list_eq_dec N.eq_dec a b); split;
    congruence.
Qed.

(** The text of a body is either rejected by the create rule or a string
    with something left after trimming. *)
Lemma bad_text_or_good (v : jsval) :
  bad_text v \/ exists str, v = Some (JString str) /\ trim str <> [].
Proof.
  destruct v as [[| | |str| |]|];
    try (left; constructor; intros; discriminate).
  destruct (list_eq_dec N.eq_dec (trim str) []) as [E|N].
  - left. now constructor.
  - right. exists str. split; [reflexivity|exact N].
Qed.

(** The create handler on a rejected text. *)
Lemma post_rejects now b s :
  bad_text (body_text b) ->
  post_todos now b s =
    (bad_request "Text is required and must be a non-empty string", s).
Proof.
  intros H. unfold post_todos.
  destruct H as [|v Hv|str Hb].
  - reflexivity.
  - destruct v as [| | |str| |]; try (now destruct (truthy _)).
    now destruct (Hv str).
  - cbn [string_of]. rewrite Hb. cbn [jsstring_eqb].
    now rewrite orb_true_r.
Qed.

(** The create handler on an accepted text. *)
Lemma post_accepts now b s str :
  body_text b = Some (JString str) -> trim str <> [] ->
  post_todos now b s =
    let newTodo := {| id := nextId s; text := trim str; createdAt := now |} in
    ({| status := 201; body := Created newTodo |},
     {| todos := todos s ++ [newTodo]; nextId := nextId s + 1 |}).
Proof.
  intros E N. unfold post_todos. rewrite E. cbn [truthy typeof string_of].
  assert (Hs : jsstring_eqb str [] = false).
  { apply jsstring_eqb_neq. intros ->. now apply N. }
  apply jsstring_eqb_neq in N. rewrite Hs, N. reflexivity.
Qed.

(** The delete handler on an identifier that parses to [n]. *)
Lemma delete_cases param s n :
  parseInt param = Some n ->
  (forall t, In t (todos s) -> id t <> n)
  /\ delete_todos_id param s = (not_found, s)
  \/ exists l1 x l2,
       todos s = l1 ++ x :: l2 /\ id x = n
       /\ (forall t, In t l1 -> id t <> n)
       /\ delete_todos_id param s =
            (no_content, {| todos := l1 ++ l2; nextId := nextId s |}).
Proof.
  intros E. unfold delete_todos_id. rewrite E.
  destruct (findIndex (fun todo => id todo =? n) (todos s) =? -1) eqn:Hi.
  - left. apply Z.eqb_eq in Hi. split; [|reflexivity].
    intros t Ht. apply (proj1 (findIndex_none _ _) Hi) in Ht.
    now apply Z.eqb_neq.
  - right. apply Z.eqb_neq in Hi.
    destruct (findIndex_some _ _ Hi) as (l1 & x & l2 & El & Px & F & Ix).
    exists l1, x, l2. rewrite Ix, El, splice_one.
    repeat split; [now apply Z.eqb_eq|].
    intros t Ht. apply Z.eqb_neq. now apply F.
Qed.

End HandlerFacts.

(** ** The store invariant along a run *)

Module RunFacts.
Import JSFacts StringFacts ListFacts HandlerFacts.

Lemma initial_store_ok : store_ok initial_store.
Proof. split; cbn; try constructor; lia. Qed.

Lemma trim_tidy str : trim str <> [] -> tidy_text (trim str).
Proof.
  intros N. destruct (trim_no_surrounding str) as [Hs He].
  repeat split; assumption.
Qed.

Lemma post_preserves now b s : store_ok s -> store_ok (snd (post_todos now b s)).
Proof.
  intros [Hsorted Hrange Hcounter Htext].
  destruct (bad_text_or_good (body_text b)) as [Hbad|(str & E & N)].
  - rewrite post_rejects by exact Hbad. now split.
  - rewrite (post_accepts now b s str E N). cbn [snd]. unfold ids in *.
    split; unfold ids; cbn [todos nextId].
    + rewrite map_app. cbn [map id]. apply sorted_snoc; [exact Hsorted|].
      eapply Forall_impl; [|exact Hrange]. cbn. lia.
    + rewrite map_app. apply Forall_app. split.
      * eapply Forall_impl; [|exact Hrange]. cbn. lia.
      * cbn [map id]. constructor; [lia|constructor].
    + lia.
    + apply Forall_app. split; [exact Htext|].
      constructor; [|constructor]. cbn [text]. now apply trim_tidy.
Qed.

Lemma delete_subsequence param s :
  subsequence (todos (snd (delete_todos_id param s))) (todos s)
  /\ nextId (snd (delete_todos_id param s)) = nextId s.
Proof.
  destruct (parseInt param) as [n|] eqn:E.
  - destruct (delete_cases param s n E)
      as [[_ ->]|(l1 & x & l2 & El & _ & _ & ->)]; cbn [snd todos nextId].
    + split; [apply subsequence_refl|reflexivity].
    + rewrite El. split; [apply subsequence_remove|reflexivity].
  - unfold delete_todos_id. rewrite E. cbn [snd].
    split; [apply subsequence_refl|reflexivity].
Qed.

Lemma delete_preserves param s :
  store_ok s -> store_ok (snd (delete_todos_id param s)).
Proof.
  intros [Hsorted Hrange Hcounter Htext].
  destruct (delete_subsequence param s) as [Hsub Hn].
  split; unfold ids in *.
  - eapply subsequence_sorted; [|exact Hsorted]. now apply subsequence_map.
  - rewrite Hn. rewrite Forall_forall in *. intros i Hi. apply Hrange.
    eapply subsequence_In; [|exact Hi]. now apply subsequence_map.
  - now rewrite Hn.
  - rewrite Forall_forall in *. intros t Ht. apply Htext.
    eapply subsequence_In; eassumption.
Qed.

Lemma handle_preserves env now req s :
  store_ok s -> store_ok (snd (handle env now req s)).
Proof.
  destruct req; cbn [handle]; intros H.
  - exact H.
  - now apply post_preserves.
  - now apply delete_preserves.
  - exact H.
Qed.

Lemma run_cons env now req rest s :
  run env ((now, req) :: rest) s =
    (fst (handle env now req s) :: fst (run env rest (snd (handle env now req s))),
     snd (run env rest (snd (handle env now req s)))).
Proof.
  cbn [run]. destruct (handle env now req s) as [resp s1]. cbn [fst snd].
  destruct (run env rest s1). reflexivity.
Qed.

Lemma run_preserves env evs :
  forall s, store_ok s -> store_ok (snd (run env evs s)).
Proof.
  induction evs as [|[now req] rest IH]; intros s H; [exact H|].
  rewrite run_cons. cbn [snd]. apply IH. now apply handle_preserves.
Qed.

(** Every store the server can reach satisfies the invariant. *)
Lemma store_after_ok env evs : store_ok (store_after env evs).
Proof. apply run_preserves, initial_store_ok. Qed.

(** What one request creates, and what it does to the counter. *)
Lemma handle_created env now req s :
  let r := fst (handle env now req s) in
  let s1 := snd (handle env now req s) in
  created_by r = [] /\ nextId s1 = nextId s
  /\ subsequence (todos s1) (todos s)
  \/ exists t,
       created_by r = [t] /\ id t = nextId s /\ nextId s1 = nextId s + 1
       /\ todos s1 = todos s ++ [t].
Proof.
  destruct req as [|b|param|]; cbn [handle].
  - left. repeat split. apply subsequence_refl.
  - destruct (bad_text_or_good (body_text b)) as [Hbad|(str & E & N)].
    + left. rewrite post_rejects by exact Hbad. repeat split.
      apply subsequence_refl.
    + right. rewrite (post_accepts now b s str E N). cbn.
      eexists. repeat split.
  - left. destruct (delete_subsequence param s) as [Hsub Hn].
    repeat split; [|exact Hn|exact Hsub].
    unfold delete_todos_id. destruct (parseInt param); [|reflexivity].
    destruct (_ =? -1); reflexivity.
  - left. repeat split. apply subsequence_refl.
Qed.

(** The ids issued during a run, from any store: consecutive from the
    counter, which ends above all of them; the records left are a
    subsequence of the initial ones followed by the created ones. *)
Lemma run_issues env evs :
  forall s,
    let resps := fst (run env evs s) in
    let s' := snd (run env evs s) in
    StronglySorted Z.lt (issued_ids resps)
    /\ Forall (fun i => nextId s <= i < nextId s') (issued_ids resps)
    /\ nextId s' = nextId s + Z.of_nat (List.length (issued_ids resps))
    /\ subsequence (todos s') (todos s ++ created_records resps).
Proof.
  induction evs as [|[now req] rest IH]; intros s; cbn zeta.
  - cbn. repeat split; try constructor; try lia.
    rewrite app_nil_r. apply subsequence_refl.
  - rewrite run_cons. cbn [fst snd].
    specialize (IH (snd (handle env now req s))). cbn zeta in IH.
    destruct IH as (Hs & Hr & Hn & Hsub).
    unfold issued_ids in *. cbn [created_records flat_map].
    fold (created_records (fst (run env rest (snd (handle env now req s))))) in *.
    destruct (handle_created env now req s)
      as [(Ec & En & Hd)|(t & Ec & Ei & En & Et)]; rewrite Ec; cbn [app map].
    + rewrite En in *. repeat split; try assumption.
      eapply subsequence_trans; [exact Hsub|]. now apply subsequence_app.
    + rewrite En, Et in *. repeat split.
      * constructor; [exact Hs|].
        eapply Forall_impl; [|exact Hr]. cbn. lia.
      * constructor; [lia|]. eapply Forall_impl; [|exact Hr]. cbn. lia.
      * cbn [List.length]. lia.
      * rewrite <- app_assoc in Hsub. exact Hsub.
Qed.

(** The counter is one more than the number of accepted insertions. *)
Lemma counter_counts_insertions env evs :
  nextId (store_after env evs)
  = 1 + Z.of_nat (List.length (issued_ids (responses_of env evs))).
Proof.
  destruct (run_issues env evs initial_store) as (_ & _ & H & _). exact H.
Qed.

End RunFacts.

(** ** Worked examples of the runtime functions *)

Module Examples.

Example parseInt_prefix : parseInt (lit "1abc") = Some 1.
Proof. reflexivity. Qed.

Example parseInt_fraction : parseInt (lit "12.5") = Some 12.
Proof. reflexivity. Qed.

Example parseInt_space_sign : parseInt (lit "  -42") = Some (-42).
Proof. reflexivity. Qed.

Example parseInt_hex : parseInt (lit "-0X1F") = Some (-31).
Proof. reflexivity. Qed.

Example parseInt_bare_hex_marker : parseInt (lit "0x") = None.
Proof. reflexivity. Qed.

Example parseInt_letters : parseInt (lit "abc") = None.
Proof. reflexivity. Qed.

Example parseInt_two_signs : parseInt (lit "+-1") = None.
Proof. reflexivity. Qed.

Example decimal_negative_number : decimal (-1205) = lit "-1205".
Proof. reflexivity. Qed.

Example decimal_of_zero : decimal 0 = lit "0".
Proof. reflexivity. Qed.

Example splice_middle : splice 1 1 [1; 2; 3] = [1; 3].
Proof. reflexivity. Qed.

Example splice_from_end : splice (-1) 1 [1; 2; 3] = [1; 2].
Proof. reflexivity. Qed.

Example findIndex_absent : findIndex (fun x => x =? 9) [1; 2; 3] = -1.
Proof. reflexivity. Qed.

End Examples.

(** ** The properties of the specification *)

Import JSFacts StringFacts ParseFacts NaNFacts ListFacts HandlerFacts RunFacts.

(** C1, as stated, fails: the identifier [1abc] does not denote an integer,
    yet the request is served as a deletion of id 1 and answers 204,
    removing the record. *)
Lemma delete_non_integer_counterexample :
  let s := store_after default_env [(noon, post_text "a")] in
  denotes_integer (lit "1abc") = false
  /\ handle default_env noon (DELETE_todos_id (lit "1abc")) s
     = (no_content, {| todos := []; nextId := 2 |})
  /\ handle default_env noon (DELETE_todos_id (lit "1abc")) s
     <> (bad_request "Invalid todo ID", s).
Proof.
  cbv zeta. split; [|split].
  - vm_compute. reflexivity.
  - vm_compute. reflexivity.
  - intros H. vm_compute in H. discriminate H.
Qed.

(** C1, amended: a DELETE request whose path identifier has no numeric
    prefix (after optional white space and an optional sign there is no
    decimal digit, or there is [0x] not followed by a hexadecimal digit)
    answers 400 with the error "Invalid todo ID" and leaves the store as it
    was. *)
Theorem delete_rejects_without_numeric_prefix env now p s :
  has_numeric_prefix p = false ->
  handle env now (DELETE_todos_id p) s = (bad_request "Invalid todo ID", s).
Proof.
  intros H. apply parseInt_NaN_iff in H.
  cbn [handle]. unfold delete_todos_id. rewrite H. reflexivity.
Qed.

(** Conversely, a DELETE request answers 400 only on such an identifier. *)
Lemma delete_400_only_without_numeric_prefix env now p s :
  status (fst (handle env now (DELETE_todos_id p) s)) = 400 ->
  has_numeric_prefix p = false.
Proof.
  intros H. apply parseInt_NaN_iff. cbn [handle] in H.
  unfold delete_todos_id in H. destruct (parseInt p) as [n|]; [|reflexivity].
  destruct (_ =? -1); discriminate H.
Qed.

Lemma delete_rejects_without_numeric_prefix_witness :
  handle default_env noon (DELETE_todos_id (lit "abc")) initial_store
  = (bad_request "Invalid todo ID", initial_store).
Proof.
  apply delete_rejects_without_numeric_prefix. reflexivity.
Defined.

(** C2: a POST request whose [text] is absent, is not a string, or trims to
    the empty string answers 400 with the error "Text is required and must
    be a non-empty string", and the store (records and counter) is the one
    before the request. *)
Theorem create_rejects_bad_text env now b s :
  bad_text (body_text b) ->
  handle env now (POST_todos b) s
  = (bad_request "Text is required and must be a non-empty string", s).
Proof.
  intros H. cbn [handle]. now apply post_rejects.
Qed.

Lemma create_rejects_bad_text_witness :
  let rejected b s :=
    handle default_env noon (POST_todos b) s
    = (bad_request "Text is required and must be a non-empty string", s) in
  rejected (ObjectBody [(lit "text", JString (lit ""))]) initial_store
  /\ rejected (ObjectBody [(lit "text", JString (lit "   "))]) initial_store
  /\ rejected (ObjectBody []) initial_store
  /\ rejected (ObjectBody [(lit "text", JNumber 5)]) initial_store.
Proof.
  cbv zeta. split; [|split; [|split]]; apply create_rejects_bad_text.
  - apply text_blank. reflexivity.
  - apply text_blank. reflexivity.
  - apply text_absent.
  - apply text_not_a_string. intros str. discriminate.
Defined.

(** C3: for every store and every path identifier that parses to the
    integer [n]: if a record with id [n] is stored, DELETE answers 204 with
    an empty body and the store loses exactly the first such record (one
    record fewer, the others and the counter as before; when the ids are
    distinct no record with id [n] is left); if no record has id [n], it
    answers 404 with the error "Todo not found" and the store is as before. *)
Theorem delete_semantics env now s n p :
  parseInt p = Some n ->
  ((exists t, In t (todos s) /\ id t = n) ->
   exists l1 x l2,
     todos s = l1 ++ x :: l2 /\ id x = n
     /\ (forall t, In t l1 -> id t <> n)
     /\ handle env now (DELETE_todos_id p) s
        = (no_content, {| todos := l1 ++ l2; nextId := nextId s |})
     /\ List.length (todos s) = S (List.length (l1 ++ l2))
     /\ (NoDup (ids s) -> ~ In n (map id (l1 ++ l2))))
  /\ ((forall t, In t (todos s) -> id t <> n) ->
      handle env now (DELETE_todos_id p) s = (not_found, s)).
Proof.
  intros E. cbn [handle].
  destruct (delete_cases p s n E)
    as [[Habs R]|(l1 & x & l2 & El & Ex & Hl1 & R)]; split.
  - intros (t & Ht & Eid). now destruct (Habs t Ht).
  - intros _. exact R.
  - intros _. exists l1, x, l2. repeat split; try assumption.
    + rewrite El, !length_app. cbn [List.length]. lia.
    + unfold ids. rewrite El, map_app. cbn [map]. intros Hnd Hin.
      apply NoDup_remove_2 in Hnd. rewrite Ex in Hnd. apply Hnd.
      now rewrite <- map_app.
  - intros Habs. destruct (Habs x); [|exact Ex].
    rewrite El. apply in_or_app. right. now left.
Qed.

Lemma delete_semantics_witness :
  let s := store_after default_env [(noon, post_text "a")] in
  handle default_env noon (DELETE_todos_id (lit "7")) s = (not_found, s)
  /\ exists l1 x l2,
       todos s = l1 ++ x :: l2 /\ id x = 1
       /\ handle default_env noon (DELETE_todos_id (lit "1")) s
          = (no_content, {| todos := l1 ++ l2; nextId := nextId s |}).
Proof.
  cbv zeta. split.
  - apply (delete_semantics default_env noon _ 7 (lit "7") eq_refl).
    intros t [<-|[]]. discriminate.
  - destruct (proj1 (delete_semantics default_env noon
                       (store_after default_env [(noon, post_text "a")])
                       1 (lit "1") eq_refl))
      as (l1 & x & l2 & El & Ex & _ & R & _).
    + eexists. split; [left; reflexivity|reflexivity].
    + exists l1, x, l2. repeat split; assumption.
Defined.

(** C4: whatever requests have been served since process start, the ids of
    the stored records are pairwise distinct. *)
Theorem ids_pairwise_distinct env evs : NoDup (ids (store_after env evs)).
Proof.
  apply sorted_NoDup. apply (ok_sorted _ (store_after_ok env evs)).
Qed.

(** C5: along every run from process start, the ids assigned by accepted
    insertions are strictly increasing in the order of assignment, whatever
    deletions happen in between, so none is assigned twice; the counter
    stays above every id assigned, no request decreases it, and a deletion
    leaves it as it is. *)
Theorem ids_strictly_increasing env evs :
  StronglySorted Z.lt (issued_ids (responses_of env evs))
  /\ NoDup (issued_ids (responses_of env evs))
  /\ Forall (fun i => 1 <= i < nextId (store_after env evs))
       (issued_ids (responses_of env evs))
  /\ (forall now req s, nextId s <= nextId (snd (handle env now req s)))
  /\ (forall now p s,
        nextId (snd (handle env now (DELETE_todos_id p) s)) = nextId s).
Proof.
  destruct (run_issues env evs initial_store) as (Hs & Hr & _ & _).
  repeat split.
  - exact Hs.
  - apply sorted_NoDup, Hs.
  - exact Hr.
  - intros now req s.
    destruct (handle_created env now req s)
      as [(_ & -> & _)|(t & _ & _ & -> & _)]; lia.
  - intros now p s. apply delete_subsequence.
Qed.

(** C7: from the empty store, inserting "a" then "b" makes the list the
    records with ids 1 and 2 in that order; deleting id 1 then leaves the
    record with id 2; inserting "c" then creates the record with id 3. *)
Theorem scenario env t1 t2 t3 t4 :
  let a := {| id := 1; text := lit "a"; createdAt := t1 |} in
  let b := {| id := 2; text := lit "b"; createdAt := t2 |} in
  let c := {| id := 3; text := lit "c"; createdAt := t4 |} in
  let s2 := store_after env [(t1, post_text "a"); (t2, post_text "b")] in
  let s3 := snd (handle env t3 (DELETE_todos_id (lit "1")) s2) in
  fst (handle env t3 GET_todos s2) = {| status := 200; body := Todos [a; b] |}
  /\ fst (handle env t3 (DELETE_todos_id (lit "1")) s2) = no_content
  /\ fst (handle env t4 GET_todos s3) = {| status := 200; body := Todos [b] |}
  /\ handle env t4 (post_text "c") s3
     = ({| status := 201; body := Created c |},
        {| todos := [b; c]; nextId := 4 |}).
Proof.
  cbv zeta. repeat split.
Qed.

(** C8: an accepted insertion stores the submitted string trimmed, which is
    not empty and has no white space at either end; inserting
    "  buy milk  " stores "buy milk"; and every text in a reachable store is
    not empty and has no white space at either end. *)
Theorem stored_text_is_trimmed env :
  (forall now b s,
     status (fst (handle env now (POST_todos b) s)) = 201 ->
     exists str,
       body_text b = Some (JString str)
       /\ tidy_text (trim str)
       /\ handle env now (POST_todos b) s
          = let newTodo :=
              {| id := nextId s; text := trim str; createdAt := now |} in
            ({| status := 201; body := Created newTodo |},
             {| todos := todos s ++ [newTodo]; nextId := nextId s + 1 |}))
  /\ (forall now s,
        fst (handle env now (post_text "  buy milk  ") s)
        = {| status := 201;
             body := Created {| id := nextId s; text := lit "buy milk";
                                createdAt := now |} |})
  /\ (forall evs,
        Forall (fun t => tidy_text (text t)) (todos (store_after env evs))).
Proof.
  split; [|split].
  - intros now b s H. cbn [handle] in *.
    destruct (bad_text_or_good (body_text b)) as [Hbad|(str & E & N)].
    + rewrite post_rejects in H by exact Hbad. discriminate H.
    + exists str. split; [exact E|]. split; [now apply trim_tidy|].
      now apply post_accepts.
  - reflexivity.
  - intros evs. apply (ok_text _ (store_after_ok env evs)).
Qed.

Lemma stored_text_is_trimmed_witness :
  exists str,
    body_text (ObjectBody [(lit "text", JString (lit " x "))])
    = Some (JString str)
    /\ tidy_text (trim str).
Proof.
  destruct (proj1 (stored_text_is_trimmed default_env) noon
              (ObjectBody [(lit "text", JString (lit " x "))])
              initial_store eq_refl)
    as (str & E & T & _).
  exists str. split; assumption.
Defined.

(** C9: GET /api/todos and GET /api/health leave the store (records, order
    and counter) as it was; a request that changes the store is a POST or a
    DELETE, and each of the two can change it. *)
Theorem reads_leave_store_unchanged env now s :
  snd (handle env now GET_todos s) = s
  /\ snd (handle env now GET_health s) = s
  /\ (forall req,
        snd (handle env now req s) <> s ->
        (exists b, req = POST_todos b) \/ (exists p, req = DELETE_todos_id p))
  /\ snd (handle env now (post_text "a") s) <> s
  /\ (exists s0 p, snd (handle env now (DELETE_todos_id p) s0) <> s0).
Proof.
  split; [reflexivity|]. split; [reflexivity|]. split; [|split].
  - intros [|b|p|] H; try (now destruct H).
    + left. now exists b.
    + right. now exists p.
  - cbn. intros H. apply (f_equal nextId) in H. cbn in H. lia.
  - exists (store_after default_env [(noon, post_text "a")]), (lit "1").
    vm_compute. discriminate.
Qed.

(** C10: in every reachable store, DELETE with the decimal writing of an
    integer [n <= 0] as path identifier (such as [-5] or [0]) parses the
    identifier to [n] and answers 404 with the error "Todo not found",
    leaving the store as it was: every stored id is at least 1. *)
Theorem delete_nonpositive_id_not_found env evs now n :
  n <= 0 ->
  let s := store_after env evs in
  parseInt (decimal n) = Some n
  /\ Forall (fun i => 1 <= i) (ids s)
  /\ handle env now (DELETE_todos_id (decimal n)) s = (not_found, s).
Proof.
  intros Hn s.
  pose proof (ok_range _ (store_after_ok env evs)) as Hr. fold s in Hr.
  split; [apply parseInt_decimal|]. split.
  - eapply Forall_impl; [|exact Hr]. cbn. lia.
  - cbn [handle].
    destruct (delete_cases _ s n (parseInt_decimal n))
      as [[_ R]|(l1 & x & l2 & El & Ex & _)]; [exact R|].
    rewrite Forall_forall in Hr. specialize (Hr (id x)).
    unfold ids in Hr. rewrite El, map_app in Hr. cbn [map] in Hr.
    assert (1 <= id x < nextId s) by (apply Hr, in_or_app; right; now left).
    lia.
Qed.

Lemma delete_nonpositive_id_not_found_witness :
  let s := store_after default_env [(noon, post_text "a")] in
  handle default_env noon (DELETE_todos_id (lit "-5")) s = (not_found, s)
  /\ handle default_env noon (DELETE_todos_id (lit "0")) s = (not_found, s).
Proof.
  cbv zeta. split.
  - apply (delete_nonpositive_id_not_found default_env
             [(noon, post_text "a")] noon (-5)). lia.
  - apply (delete_nonpositive_id_not_found default_env
             [(noon, post_text "a")] noon 0). lia.
Defined.

(** ** What one request does, by kind of answer *)

Module EffectFacts.
Import JSFacts StringFacts ParseFacts NaNFacts ListFacts HandlerFacts RunFacts.

(** Every request is answered in one of four ways: a read (200, store as
    before), a creation (201, one record appended with the counter as id),
    a removal (204, the first record with the parsed id taken out), or a
    refusal (400 or 404 with an error message, store as before). *)
Lemma handle_effect env now req s :
  let r := fst (handle env now req s) in
  let s1 := snd (handle env now req s) in
  (status r = 200 /\ is_error (body r) = false /\ s1 = s
   /\ created_by r = [] /\ (req = GET_todos \/ req = GET_health))
  \/ (exists b str,
        req = POST_todos b /\ body_text b = Some (JString str)
        /\ trim str <> []
        /\ r = {| status := 201;
                  body := Created {| id := nextId s; text := trim str;
                                     createdAt := now |} |}
        /\ s1 = {| todos := todos s
                            ++ [{| id := nextId s; text := trim str;
                                   createdAt := now |}];
                   nextId := nextId s + 1 |})
  \/ (exists p n l1 x l2,
        req = DELETE_todos_id p /\ parseInt p = Some n
        /\ todos s = l1 ++ x :: l2 /\ id x = n
        /\ (forall t, In t l1 -> id t <> n)
        /\ r = no_content
        /\ s1 = {| todos := l1 ++ l2; nextId := nextId s |})
  \/ ((status r = 400 \/ status r = 404)
      /\ (exists e, body r = Error e /\ e <> EmptyString)
      /\ s1 = s /\ created_by r = []
      /\ ((exists b, req = POST_todos b) \/ (exists p, req = DELETE_todos_id p))).
Proof.
  cbv zeta. destruct req as [|b|p|]; cbn [handle].
  - left. repeat split. now left.
  - destruct (bad_text_or_good (body_text b)) as [Hbad|(str & E & N)].
    + right. right. right. rewrite post_rejects by exact Hbad. cbn.
      repeat split; [now left| |now left; exists b].
      eexists. split; [reflexivity|discriminate].
    + right. left. exists b, str. rewrite (post_accepts now b s str E N).
      repeat split; assumption.
  - destruct (parseInt p) as [n|] eqn:E.
    + destruct (delete_cases p s n E)
        as [[_ R]|(l1 & x & l2 & El & Ex & Hl & R)]; rewrite R.
      * right. right. right. cbn. repeat split; [now right| |now right; exists p].
        eexists. split; [reflexivity|discriminate].
      * right. right. left. exists p, n, l1, x, l2. repeat split; assumption.
    + right. right. right. unfold delete_todos_id. rewrite E. cbn.
      repeat split; [now left| |now right; exists p].
      eexists. split; [reflexivity|discriminate].
  - left. repeat split. now right.
Qed.

(** On a store with distinct ids, the removal of the delete handler is the
    removal of every record with the parsed id. *)
Lemma remove_first_is_filter (l1 l2 : list todo) (x : todo) :
  NoDup (map id (l1 ++ x :: l2)) ->
  filter (fun t => negb (id t =? id x)) (l1 ++ x :: l2) = l1 ++ l2.
Proof.
  intros Hnd. rewrite map_app in Hnd. cbn [map] in Hnd.
  pose proof (NoDup_remove_2 _ _ _ Hnd) as Hx.
  assert (K : forall l, (forall t, In t l -> id t <> id x) ->
                        filter (fun t => negb (id t =? id x)) l = l).
  { induction l as [|a l IH]; intros H; [reflexivity|]. cbn [filter].
    replace (id a =? id x) with false
      by (symmetry; apply Z.eqb_neq, H; now left).
    cbn [negb]. f_equal. apply IH. intros t Ht. apply H. now right. }
  rewrite filter_app. cbn [filter]. rewrite Z.eqb_refl. cbn [negb].
  rewrite !K; [reflexivity| |].
  - intros t Ht E. apply Hx. apply in_or_app. right. rewrite <- E.
    now apply in_map.
  - intros t Ht E. apply Hx. apply in_or_app. left. rewrite <- E.
    now apply in_map.
Qed.

Lemma delete_is_filter p n s :
  parseInt p = Some n -> NoDup (ids s) ->
  snd (delete_todos_id p s)
  = {| todos := filter (fun t => negb (id t =? n)) (todos s);
       nextId := nextId s |}.
Proof.
  intros E Hnd.
  destruct (delete_cases p s n E)
    as [[Habs ->]|(l1 & x & l2 & El & Ex & Hl & ->)]; cbn [snd].
  - destruct s as [l c]. cbn [todos nextId] in *. f_equal.
    clear Hnd. induction l as [|a l IH]; [reflexivity|]. cbn [filter].
    replace (id a =? n) with false
      by (symmetry; apply Z.eqb_neq, Habs; now left).
    cbn [negb]. f_equal. apply IH. intros t Ht. apply Habs. now right.
  - f_equal. unfold ids in Hnd. rewrite El in *. subst n.
    symmetry. now apply remove_first_is_filter.
Qed.

End EffectFacts.

(** ** The store as a function of the history *)

Module HistoryFacts.
Import JSFacts StringFacts ParseFacts NaNFacts ListFacts HandlerFacts RunFacts.
Import EffectFacts.

Lemma count_status_cons c r resps :
  count_status c (r :: resps)
  = (if status r =? c then 1 else 0) + count_status c resps.
Proof.
  unfold count_status. cbn [filter].
  destruct (status r =? c); cbn [List.length]; lia.
Qed.

(** Records gained and lost during a run, from any store. *)
Lemma run_counts env evs :
  forall s,
    let resps := fst (run env evs s) in
    let s' := snd (run env evs s) in
    Z.of_nat (List.length (todos s'))
    = Z.of_nat (List.length (todos s))
      + count_status 201 resps - count_status 204 resps
    /\ nextId s' = nextId s + count_status 201 resps
    /\ Z.of_nat (List.length resps) = Z.of_nat (List.length evs).
Proof.
  induction evs as [|[now req] rest IH]; intros s; cbv zeta.
  - cbn. unfold count_status. cbn. lia.
  - rewrite run_cons. cbn [fst snd].
    specialize (IH (snd (handle env now req s))). cbv zeta in IH.
    destruct IH as (IHl & IHn & IHk).
    rewrite !count_status_cons, IHl, IHn. cbn [List.length].
    rewrite !Nat2Z.inj_succ, IHk. clear IHl IHn IHk.
    destruct (handle_effect env now req s)
      as [(St & _ & -> & _)
         |[(b & str & _ & _ & _ & -> & ->)
          |[(p & n & l1 & x & l2 & _ & _ & El & _ & _ & -> & ->)
           |(St & _ & -> & _)]]].
    + rewrite St. cbn [Z.eqb Pos.eqb]. lia.
    + cbn [status todos nextId]. rewrite length_app.
      cbn [List.length Z.eqb Pos.eqb]. lia.
    + cbn [status todos nextId no_content]. rewrite El, !length_app.
      cbn [List.length Z.eqb Pos.eqb]. lia.
    + destruct St as [-> | ->]; cbn [Z.eqb Pos.eqb]; lia.
Qed.

Lemma survives_cons n deleted t :
  survives (n :: deleted) t = negb (id t =? n) && survives deleted t.
Proof. unfold survives. cbn [existsb]. now rewrite negb_orb. Qed.

Lemma filter_survives_cons n deleted (l : list todo) :
  filter (survives (n :: deleted)) l
  = filter (survives deleted) (filter (fun t => negb (id t =? n)) l).
Proof.
  induction l as [|a l IH]; [reflexivity|]. cbn [filter].
  rewrite survives_cons. destruct (negb (id a =? n)); cbn [andb filter].
  - destruct (survives deleted a); now rewrite IH.
  - exact IH.
Qed.

Lemma filter_keeps_all {A : Type} (f : A -> bool) (l : list A) :
  (forall a, In a l -> f a = true) -> filter f l = l.
Proof.
  induction l as [|a l IH]; intros H; [reflexivity|]. cbn [filter].
  rewrite (H a) by now left. f_equal. apply IH. intros b Hb. apply H. now right.
Qed.

(** The records stored after a run, from a store that satisfies the
    invariant: the initial and created records, in that order, that no
    request of the run removed. *)
Lemma run_history env evs :
  forall s,
    store_ok s ->
    let resps := fst (run env evs s) in
    todos (snd (run env evs s))
    = filter (survives (deleted_ids evs resps))
        (todos s ++ created_records resps).
Proof.
  induction evs as [|[now req] rest IH]; intros s Hok; cbv zeta.
  - cbn. rewrite app_nil_r. symmetry. now apply filter_keeps_all.
  - rewrite run_cons. cbn [fst snd].
    pose proof (handle_preserves env now req s Hok) as Hok1.
    specialize (IH _ Hok1). cbv zeta in IH.
    destruct (run_issues env rest (snd (handle env now req s)))
      as (_ & Hissued & _ & _).
    unfold deleted_ids. cbn [combine flat_map fst snd created_records].
    fold (deleted_ids rest (fst (run env rest (snd (handle env now req s))))).
    fold (created_records (fst (run env rest (snd (handle env now req s))))).
    rewrite IH. clear IH.
    set (s1 := snd (handle env now req s)) in *.
    set (C := created_records (fst (run env rest s1))) in *.
    set (D := deleted_ids rest (fst (run env rest s1))).
    destruct (handle_effect env now req s)
      as [(_ & _ & E1 & Ec & Hreq)
         |[(b & str & -> & _ & _ & Er & E1)
          |[(p & n & l1 & x & l2 & -> & Ep & El & Ex & _ & Er & E1)
           |(St & _ & E1 & Ec & Hreq)]]];
      fold s1 in E1.
    + rewrite Ec, E1. unfold deleted_by. cbn [snd].
      destruct Hreq as [-> | ->]; reflexivity.
    + rewrite Er, E1. cbn [deleted_by snd created_by body todos app].
      now rewrite <- app_assoc.
    + rewrite Er, E1. unfold deleted_by.
      cbn [snd no_content status created_by body todos app].
      change (204 =? 204) with true. cbv iota. rewrite Ep. cbn [app].
      rewrite filter_survives_cons. f_equal.
      rewrite El, filter_app. f_equal.
      * subst n. symmetry. apply remove_first_is_filter. rewrite <- El.
        apply sorted_NoDup, (ok_sorted _ Hok).
      * symmetry. apply filter_keeps_all. intros t Ht.
        apply negb_true_iff, Z.eqb_neq.
        assert (Hlt : n < nextId s).
        { pose proof (ok_range _ Hok) as Hr. rewrite Forall_forall in Hr.
          apply Hr. unfold ids. rewrite El, <- Ex. apply in_map.
          apply in_or_app. right. now left. }
        assert (Hge : nextId s1 <= id t).
        { rewrite Forall_forall in Hissued. apply Hissued.
          unfold issued_ids. now apply in_map. }
        rewrite E1 in Hge. cbn [nextId] in Hge. lia.
    + rewrite Ec, E1. unfold deleted_by. cbn [snd app].
      destruct Hreq as [(b & ->)|(p & ->)]; [reflexivity|].
      destruct St as [-> | ->]; reflexivity.
Qed.

End HistoryFacts.

(** ** The list served, as a function of the history *)

Import EffectFacts HistoryFacts.

(** C6: in every reachable store, GET /api/todos answers 200 with exactly
    the stored records, and these are all the records created during the
    run whose id no request of the run removed, in the order of their
    creation.  A DELETE answered 204 takes exactly one record out, the one
    with the parsed id, and leaves the others in place and in order, none
    of them with that id; a DELETE answered otherwise finds no record with
    the parsed id and leaves the list as it was. *)
Theorem list_in_insertion_order env evs now :
  let s := store_after env evs in
  handle env now GET_todos s = ({| status := 200; body := Todos (todos s) |}, s)
  /\ subsequence (todos s) (created_records (responses_of env evs))
  /\ todos s
     = filter (survives (deleted_ids evs (responses_of env evs)))
         (created_records (responses_of env evs))
  /\ (forall p,
        subsequence (todos (snd (handle env now (DELETE_todos_id p) s)))
          (todos s))
  /\ (forall p,
        let r := fst (handle env now (DELETE_todos_id p) s) in
        let s' := snd (handle env now (DELETE_todos_id p) s) in
        (exists n l1 x l2,
           parseInt p = Some n /\ id x = n
           /\ todos s = l1 ++ x :: l2
           /\ r = no_content
           /\ todos s' = l1 ++ l2
           /\ List.length (todos s) = S (List.length (todos s'))
           /\ ~ In n (ids s'))
        \/ (status r <> 204 /\ s' = s
            /\ forall n, parseInt p = Some n -> ~ In n (ids s))).
Proof.
  cbv zeta. split; [reflexivity|]. split; [|split; [|split]].
  - destruct (run_issues env evs initial_store) as (_ & _ & _ & H). exact H.
  - apply (run_history env evs initial_store initial_store_ok).
  - intros p. apply delete_subsequence.
  - intros p. cbn [handle].
    pose proof (sorted_NoDup _ (ok_sorted _ (store_after_ok env evs))) as Hnd.
    set (s := store_after env evs) in *.
    destruct (parseInt p) as [n|] eqn:E.
    + destruct (delete_cases p s n E)
        as [[Habs R]|(l1 & x & l2 & El & Ex & _ & R)]; rewrite R;
        cbn [fst snd].
      * right. split; [discriminate|]. split; [reflexivity|].
        intros n' [= <-] Hin. apply in_map_iff in Hin as (t & Et & Ht).
        now apply (Habs t Ht).
      * left. exists n, l1, x, l2. cbn [todos]. repeat split; try assumption.
        -- rewrite El, !length_app. cbn [List.length]. lia.
        -- unfold ids in *. cbn [todos]. rewrite El, map_app in Hnd.
           cbn [map] in Hnd. apply NoDup_remove_2 in Hnd.
           rewrite Ex in Hnd. now rewrite map_app.
    + right. unfold delete_todos_id. rewrite E. cbn [fst snd status].
      split; [discriminate|]. split; [reflexivity|]. intros n H. discriminate H.
Qed.

(** ** Further properties of the server *)

(** X1: every answer of the server is either a success (status 200, 201 or
    204, no error object in the body) or a refusal (status 400 or 404, an
    error object with a non-empty message), and a refusal leaves the store
    as it was. *)
Theorem every_answer_is_success_or_refusal env now req s :
  let r := fst (handle env now req s) in
  (In (status r) [200; 201; 204] /\ is_error (body r) = false)
  \/ (In (status r) [400; 404]
      /\ (exists e, body r = Error e /\ e <> EmptyString)
      /\ snd (handle env now req s) = s).
Proof.
  cbv zeta.
  destruct (handle_effect env now req s)
    as [(St & Hb & _)
       |[(b & str & _ & _ & _ & -> & _)
        |[(p & n & l1 & x & l2 & _ & _ & _ & _ & _ & -> & _)
         |(St & He & Es & _)]]].
  - left. rewrite St. split; [now left|exact Hb].
  - left. split; [right; now left|reflexivity].
  - left. split; [right; right; now left|reflexivity].
  - right. split; [|split; assumption].
    destruct St as [-> | ->]; [now left|right; now left].
Qed.

(** X2: the health check answers 200 with status "OK" and the clock reading
    whatever the store holds, and leaves the store as it was; the app name
    and the description it reports are never empty: each is the configured
    value when one is configured and not empty, and the default when
    nothing or the empty string is configured. *)
Theorem health_check env now s :
  exists app description,
    handle env now GET_health s
    = ({| status := 200; body := Health "OK" now app description |}, s)
    /\ app <> [] /\ description <> []
    /\ (env_APP_NAME env = Some app \/ app = lit "Todo SaaS")
    /\ (env_APP_DESCRIPTION env = Some description
        \/ description = lit "Simple, clean, and efficient task management")
    /\ (forall v, env_APP_NAME env = Some v -> v <> [] -> app = v)
    /\ (env_APP_NAME env = None \/ env_APP_NAME env = Some [] ->
        app = lit "Todo SaaS")
    /\ (forall v,
          env_APP_DESCRIPTION env = Some v -> v <> [] -> description = v)
    /\ (env_APP_DESCRIPTION env = None \/ env_APP_DESCRIPTION env = Some [] ->
        description = lit "Simple, clean, and efficient task management").
Proof.
  exists (APP_NAME env), (APP_DESCRIPTION env).
  split; [reflexivity|]. unfold APP_NAME, APP_DESCRIPTION, or_default.
  destruct (env_APP_NAME env) as [[|c r]|],
           (env_APP_DESCRIPTION env) as [[|c' r']|];
    repeat split; try discriminate; auto;
    try (intros v [= <-] Hv; (reflexivity || now destruct Hv));
    try (intros [H|H]; discriminate H).
Qed.

(** A configured app name is the one reported, and an empty one is not. *)
Lemma health_check_witness :
  exists app description,
    handle {| env_APP_NAME := Some (lit "My Todos");
              env_APP_DESCRIPTION := Some [] |} noon GET_health initial_store
    = ({| status := 200; body := Health "OK" noon app description |},
       initial_store)
    /\ app = lit "My Todos"
    /\ description = lit "Simple, clean, and efficient task management".
Proof.
  destruct (health_check {| env_APP_NAME := Some (lit "My Todos");
                            env_APP_DESCRIPTION := Some [] |}
              noon initial_store)
    as (app & description & E & _ & _ & _ & _ & Ha & _ & _ & Hd).
  exists app, description. split; [exact E|]. split.
  - apply (Ha (lit "My Todos") eq_refl). discriminate.
  - apply Hd. now right.
Defined.

(** X3: the path the front end builds for an id is read back by the server
    as that id: the decimal writing of every integer denotes an integer,
    parses to it, and the delete request for it is answered 204 or 404,
    never 400. *)
Theorem frontend_id_is_read_back env now n s :
  denotes_integer (decimal n) = true
  /\ parseInt (decimal n) = Some n
  /\ (fst (handle env now (App.deleteTodo_request n) s) = no_content
      \/ fst (handle env now (App.deleteTodo_request n) s) = not_found).
Proof.
  split; [apply decimal_denotes_integer|]. split; [apply parseInt_decimal|].
  unfold App.deleteTodo_request. cbn [handle].
  destruct (delete_cases _ s n (parseInt_decimal n))
    as [[_ ->]|(l1 & x & l2 & _ & _ & _ & ->)]; [now right|now left].
Qed.

(** X4: a delete request whose path identifier denotes an integer (an
    optional sign and decimal digits) is never refused as invalid: it is
    answered 204 or 404. *)
Theorem integer_identifier_is_accepted env now p s :
  denotes_integer p = true ->
  fst (handle env now (DELETE_todos_id p) s) = no_content
  \/ fst (handle env now (DELETE_todos_id p) s) = not_found.
Proof.
  intros H. apply denotes_integer_numeric_prefix in H.
  destruct (parseInt p) as [n|] eqn:E.
  - cbn [handle].
    destruct (delete_cases p s n E)
      as [[_ ->]|(l1 & x & l2 & _ & _ & _ & ->)]; [now right|now left].
  - apply parseInt_NaN_iff in E. congruence.
Qed.

Lemma integer_identifier_is_accepted_witness :
  fst (handle default_env noon (DELETE_todos_id (lit "+42")) initial_store)
  = no_content
  \/ fst (handle default_env noon (DELETE_todos_id (lit "+42")) initial_store)
     = not_found.
Proof.
  apply integer_identifier_is_accepted. reflexivity.
Defined.

(** X5: on a store with distinct ids, repeating a delete request changes
    nothing more: the second request is answered 404 (or 400 again, when
    the identifier does not parse) and leaves the store as the first one
    left it. *)
Theorem delete_twice env now now' p s :
  NoDup (ids s) ->
  let s1 := snd (handle env now (DELETE_todos_id p) s) in
  snd (handle env now' (DELETE_todos_id p) s1) = s1
  /\ (fst (handle env now' (DELETE_todos_id p) s1) = not_found
      \/ fst (handle env now' (DELETE_todos_id p) s1)
         = bad_request "Invalid todo ID").
Proof.
  intros Hnd. cbv zeta. cbn [handle].
  destruct (parseInt p) as [n|] eqn:E.
  - rewrite (delete_is_filter p n s E Hnd).
    set (s1 := {| todos := _; nextId := _ |}).
    destruct (delete_cases p s1 n E)
      as [[_ ->]|(l1 & x & l2 & El & Ex & _)]; [split; [reflexivity|now left]|].
    exfalso. assert (Hin : In x (todos s1)) by (rewrite El; apply in_or_app; right; now left).
    subst s1. cbn [todos] in Hin. apply filter_In in Hin as [_ Hx].
    apply negb_true_iff, Z.eqb_neq in Hx. contradiction.
  - unfold delete_todos_id. rewrite E. cbn [snd fst].
    split; [reflexivity|now right].
Qed.

Lemma delete_twice_witness :
  let s := store_after default_env [(noon, post_text "a"); (noon, post_text "b")] in
  let s1 := snd (handle default_env noon (DELETE_todos_id (lit "1")) s) in
  snd (handle default_env noon (DELETE_todos_id (lit "1")) s1) = s1
  /\ (fst (handle default_env noon (DELETE_todos_id (lit "1")) s1) = not_found
      \/ fst (handle default_env noon (DELETE_todos_id (lit "1")) s1)
         = bad_request "Invalid todo ID").
Proof.
  apply (delete_twice default_env noon noon (lit "1")).
  repeat constructor; cbn; intuition discriminate.
Defined.

(** X6: in a reachable store, deleting the record just created, by the id
    the 201 answer carries, is answered 204 and gives back the list as it
    was before the creation; the counter stays advanced, so the id is not
    given out again. *)
Theorem create_then_delete env evs now now' b :
  let s := store_after env evs in
  status (fst (handle env now (POST_todos b) s)) = 201 ->
  exists t,
    fst (handle env now (POST_todos b) s)
    = {| status := 201; body := Created t |}
    /\ id t = nextId s
    /\ handle env now' (DELETE_todos_id (decimal (id t)))
         (snd (handle env now (POST_todos b) s))
       = (no_content, {| todos := todos s; nextId := nextId s + 1 |}).
Proof.
  intros s H.
  pose proof (store_after_ok env evs) as Hok. fold s in Hok.
  pose proof (handle_preserves env now (POST_todos b) s Hok) as Hok1.
  destruct (handle_effect env now (POST_todos b) s)
    as [(_ & _ & _ & _ & [Hr|Hr])
       |[(b' & str & _ & _ & _ & Er & Es)
        |[(p & n & l1 & x & l2 & Hr & _)
         |(St & _)]]]; try discriminate Hr.
  - eexists. split; [exact Er|]. split; [reflexivity|]. cbn [id].
    set (t := {| id := nextId s; text := trim str; createdAt := now |}) in *.
    set (s1 := snd (handle env now (POST_todos b) s)) in *.
    cbn [handle].
    assert (Es' : snd (delete_todos_id (decimal (nextId s)) s1)
                  = {| todos := todos s; nextId := nextId s + 1 |}).
    { rewrite (delete_is_filter _ (nextId s) s1 (parseInt_decimal _));
        [|apply sorted_NoDup, (ok_sorted _ Hok1)].
      rewrite Es. cbn [todos nextId]. f_equal.
      rewrite filter_app. cbn [filter id]. rewrite Z.eqb_refl. cbn [negb].
      rewrite app_nil_r. apply filter_keeps_all. intros a Ha.
      apply negb_true_iff, Z.eqb_neq.
      pose proof (ok_range _ Hok) as Hr. rewrite Forall_forall in Hr.
      specialize (Hr (id a) (in_map id _ _ Ha)). lia. }
    destruct (delete_cases _ s1 _ (parseInt_decimal (nextId s)))
      as [[Habs _]|(l1 & x & l2 & _ & _ & _ & R)].
    + exfalso. apply (Habs t); [|reflexivity].
      rewrite Es. cbn [todos]. apply in_or_app. right. now left.
    + rewrite R in Es' |- *. cbn [snd] in Es'. now rewrite Es'.
  - rewrite H in St. destruct St; discriminate.
Qed.

Lemma create_then_delete_witness :
  exists t,
    fst (handle default_env noon (post_text "b")
           (store_after default_env [(noon, post_text "a")]))
    = {| status := 201; body := Created t |}
    /\ id t = 2
    /\ handle default_env noon (DELETE_todos_id (decimal (id t)))
         (snd (handle default_env noon (post_text "b")
                 (store_after default_env [(noon, post_text "a")])))
       = (no_content,
          {| todos := todos (store_after default_env [(noon, post_text "a")]);
             nextId := 3 |}).
Proof.
  exact (create_then_delete default_env [(noon, post_text "a")] noon noon
           (ObjectBody [(lit "text", JString (lit "b"))]) eq_refl).
Defined.

(** X7: after any run from process start, the number of records stored is
    the number of 201 answers minus the number of 204 answers, the counter
    is one more than the number of 201 answers, and every request got one
    answer. *)
Theorem stored_count env evs :
  Z.of_nat (List.length (todos (store_after env evs)))
  = count_status 201 (responses_of env evs)
    - count_status 204 (responses_of env evs)
  /\ nextId (store_after env evs) = 1 + count_status 201 (responses_of env evs)
  /\ List.length (responses_of env evs) = List.length evs.
Proof.
  destruct (run_counts env evs initial_store) as (Hl & Hn & Hk).
  unfold store_after, responses_of. cbn [todos nextId initial_store List.length] in *.
  repeat split; lia.
Qed.

(** X8: after any run from process start, the records stored are exactly
    the records created during the run whose id no request of the run
    removed, in the order of their creation. *)
Theorem store_is_created_minus_deleted env evs :
  todos (store_after env evs)
  = filter (survives (deleted_ids evs (responses_of env evs)))
      (created_records (responses_of env evs)).
Proof.
  apply (run_history env evs initial_store initial_store_ok).
Qed.

(** X9: on a store with distinct ids, two delete requests leave the same
    store whichever is served first. *)
Theorem deletes_commute env now p q s :
  NoDup (ids s) ->
  snd (handle env now (DELETE_todos_id q)
         (snd (handle env now (DELETE_todos_id p) s)))
  = snd (handle env now (DELETE_todos_id p)
           (snd (handle env now (DELETE_todos_id q) s))).
Proof.
  intros Hnd. cbn [handle].
  assert (Keep : forall f, NoDup (map id (filter f (todos s)))).
  { intros f. unfold ids in Hnd. induction (todos s) as [|a l IH]; [constructor|].
    cbn [map filter] in *. inversion Hnd as [|? ? Ha Hl]; subst.
    destruct (f a); [|now apply IH]. cbn [map]. constructor; [|now apply IH].
    intros Hin. apply Ha. apply in_map_iff in Hin as (t & Et & Ht).
    apply filter_In in Ht as [Ht _]. rewrite <- Et. now apply in_map. }
  assert (None_id : forall r s0, parseInt r = None ->
                                 snd (delete_todos_id r s0) = s0).
  { intros r s0 E. unfold delete_todos_id. now rewrite E. }
  destruct (parseInt p) as [n|] eqn:Ep, (parseInt q) as [m|] eqn:Eq.
  - rewrite (delete_is_filter p n s Ep Hnd), (delete_is_filter q m s Eq Hnd).
    rewrite (delete_is_filter q m _ Eq), (delete_is_filter p n _ Ep);
      try apply Keep.
    cbn [todos nextId]. f_equal. clear.
    induction (todos s) as [|a l IH]; [reflexivity|]. cbn [filter].
    destruct (negb (id a =? n)) eqn:Hn, (negb (id a =? m)) eqn:Hm;
      cbn [filter]; rewrite ?Hn, ?Hm, ?IH; reflexivity.
  - now rewrite !(None_id q) by exact Eq.
  - now rewrite !(None_id p) by exact Ep.
  - rewrite !(None_id p) by exact Ep. now rewrite !(None_id q) by exact Eq.
Qed.

Lemma deletes_commute_witness :
  let s := store_after default_env [(noon, post_text "a"); (noon, post_text "b")] in
  snd (handle default_env noon (DELETE_todos_id (lit "2"))
         (snd (handle default_env noon (DELETE_todos_id (lit "1")) s)))
  = snd (handle default_env noon (DELETE_todos_id (lit "1"))
           (snd (handle default_env noon (DELETE_todos_id (lit "2")) s))).
Proof.
  apply (deletes_commute default_env noon (lit "1") (lit "2")).
  repeat constructor; cbn; intuition discriminate.
Defined.

(** ** Properties of the front end in front of the server *)

Module FrontendFacts.
Import StringFacts HandlerFacts.

Lemma body_text_single v :
  body_text (ObjectBody [(lit "text", v)]) = Some v.
Proof. reflexivity. Qed.

(** What [addTodo] sends, when it sends something. *)
Lemma addTodo_request_some st req :
  App.addTodo_request st = Some req ->
  trim (App.newTodo st) <> []
  /\ req = POST_todos
             (ObjectBody [(lit "text", JString (trim (App.newTodo st)))]).
Proof.
  unfold App.addTodo_request.
  destruct (jsstring_eqb (trim (App.newTodo st)) []) eqn:E; [discriminate|].
  intros [= <-]. split; [now apply jsstring_eqb_neq|reflexivity].
Qed.

Lemma addTodo_request_none st :
  App.addTodo_request st = None -> trim (App.newTodo st) = [].
Proof.
  unfold App.addTodo_request.
  destruct (jsstring_eqb (trim (App.newTodo st)) []) eqn:E; [|discriminate].
  intros _. now apply jsstring_eqb_eq.
Qed.

(** The server's answer to what [addTodo] sends. *)
Lemma addTodo_request_served st req env now s :
  App.addTodo_request st = Some req ->
  handle env now req s
  = let t := {| id := nextId s; text := trim (App.newTodo st);
                createdAt := now |} in
    ({| status := 201; body := Created t |},
     {| todos := todos s ++ [t]; nextId := nextId s + 1 |}).
Proof.
  intros H. destruct (addTodo_request_some st req H) as [N ->].
  cbn [handle].
  rewrite (post_accepts now _ s (trim (App.newTodo st)) (body_text_single _));
    rewrite trim_idempotent; [reflexivity|exact N].
Qed.

(** Filtering the list shown by id is filtering the list stored. *)
Lemma filter_mirror n (l : list todo) :
  filter (App.id_differs n) (map Created l)
  = map Created (filter (fun t => negb (id t =? n)) l).
Proof.
  induction l as [|a l IH]; [reflexivity|]. cbn [map filter].
  unfold App.id_differs at 1. cbn [App.item_id].
  destruct (negb (id a =? n)); cbn [map]; now rewrite IH.
Qed.

End FrontendFacts.

Import FrontendFacts.

(** X10: whatever [addTodo] of the front end sends is accepted by the
    server: the answer is 201 and the record stored carries the counter as
    id and exactly the text sent, the typed text trimmed. *)
Theorem frontend_text_is_accepted st req env now s :
  App.addTodo_request st = Some req ->
  exists t,
    handle env now req s
    = ({| status := 201; body := Created t |},
       {| todos := todos s ++ [t]; nextId := nextId s + 1 |})
    /\ id t = nextId s /\ text t = trim (App.newTodo st)
    /\ req = POST_todos (ObjectBody [(lit "text", JString (text t))]).
Proof.
  intros H. rewrite (addTodo_request_served st req env now s H). cbv zeta.
  eexists. split; [reflexivity|]. cbn [id text].
  repeat split. now destruct (addTodo_request_some st req H).
Qed.

Lemma frontend_text_is_accepted_witness :
  exists t,
    handle default_env noon (post_text "buy milk") initial_store
    = ({| status := 201; body := Created t |},
       {| todos := [t]; nextId := 2 |})
    /\ id t = 1 /\ text t = lit "buy milk"
    /\ post_text "buy milk"
       = POST_todos (ObjectBody [(lit "text", JString (text t))]).
Proof.
  exact (frontend_text_is_accepted
           {| App.todos := []; App.newTodo := lit "  buy milk ";
              App.loading := false; App.error := None; App.success := None |}
           (post_text "buy milk") default_env noon initial_store eq_refl).
Defined.

(** X11: when [addTodo] of the front end refuses the typed text, it sends
    nothing (the state afterwards does not depend on [fetch]) and only sets
    its error message; the server would have refused that text too, with
    400 and the store as it was. *)
Theorem frontend_refusal_agrees json_error st env now s :
  App.addTodo_request st = None ->
  (forall fetch,
     App.addTodo json_error fetch st
     = App.setError (Some (lit "Please enter a todo item")) st)
  /\ handle env now
       (POST_todos (ObjectBody [(lit "text", JString (App.newTodo st))])) s
     = (bad_request "Text is required and must be a non-empty string", s).
Proof.
  intros H. split.
  - intros fetch. unfold App.addTodo. now rewrite H.
  - cbn [handle]. apply post_rejects. rewrite body_text_single.
    apply text_blank. now apply addTodo_request_none.
Qed.

Lemma frontend_refusal_agrees_witness :
  let st := {| App.todos := []; App.newTodo := lit "   ";
               App.loading := false; App.error := None;
               App.success := None |} in
  (forall fetch,
     App.addTodo [] fetch st
     = App.setError (Some (lit "Please enter a todo item")) st)
  /\ handle default_env noon (post_text "   ") initial_store
     = (bad_request "Text is required and must be a non-empty string",
        initial_store).
Proof.
  exact (frontend_refusal_agrees []
           {| App.todos := []; App.newTodo := lit "   ";
              App.loading := false; App.error := None; App.success := None |}
           default_env noon initial_store eq_refl).
Defined.

(** X12: if the list shown is the list stored, it still is after one
    [addTodo] served by the server.  Either the typed text trims to the
    empty string, nothing is sent and only the error message is set; or the
    record created is appended on both sides, the input is cleared and the
    success message is set. *)
Theorem addTodo_keeps_mirror json_error env now st s :
  mirrors st s ->
  let st' := fst (addTodo_served json_error env now st s) in
  let s' := snd (addTodo_served json_error env now st s) in
  mirrors st' s'
  /\ ((trim (App.newTodo st) = [] /\ s' = s
       /\ App.error st' = Some (lit "Please enter a todo item"))
      \/ (exists t,
            todos s' = todos s ++ [t] /\ text t = trim (App.newTodo st)
            /\ App.newTodo st' = [] /\ App.error st' = None
            /\ App.success st' = Some (lit "Todo added successfully!"))).
Proof.
  intros M. cbv zeta. unfold addTodo_served, App.addTodo. cbn [fst snd].
  destruct (App.addTodo_request st) as [req|] eqn:E.
  - unfold served. rewrite (addTodo_request_served st req env now s E).
    cbv zeta. cbn [fst snd App.addTodo_settle App.ok status body negb].
    cbn [Z.leb Z.compare Pos.compare Pos.compare_cont andb negb].
    split.
    + unfold mirrors in *. cbn [App.todos App.setSuccess App.setNewTodo
                                App.setTodos App.setError todos].
      now rewrite M, map_app.
    + right. eexists. repeat split.
  - split; [exact M|]. left. repeat split.
    now apply addTodo_request_none.
Qed.

Lemma addTodo_keeps_mirror_witness :
  let st := {| App.todos := []; App.newTodo := lit " a ";
               App.loading := false; App.error := None;
               App.success := None |} in
  mirrors (fst (addTodo_served [] default_env noon st initial_store))
    (snd (addTodo_served [] default_env noon st initial_store)).
Proof.
  exact (proj1 (addTodo_keeps_mirror [] default_env noon
                  {| App.todos := []; App.newTodo := lit " a ";
                     App.loading := false; App.error := None;
                     App.success := None |}
                  initial_store eq_refl)).
Defined.

(** X13: if the list shown is the list stored and the ids are distinct, it
    still is after one [deleteTodo] served by the server, and no record
    with the id is left.  When the id was stored the success message is
    set; when it was not, the store is as before and the error message is
    "Failed to delete todo". *)
Theorem deleteTodo_keeps_mirror env now n st s :
  mirrors st s -> NoDup (ids s) ->
  let st' := fst (deleteTodo_served env now n st s) in
  let s' := snd (deleteTodo_served env now n st s) in
  mirrors st' s'
  /\ ~ In n (ids s')
  /\ ((In n (ids s) /\ App.error st' = None
       /\ App.success st' = Some (lit "Todo deleted successfully!"))
      \/ (~ In n (ids s) /\ s' = s
          /\ App.error st' = Some (lit "Failed to delete todo"))).
Proof.
  intros M Hnd. cbv zeta.
  unfold deleteTodo_served, App.deleteTodo, App.deleteTodo_request, served.
  cbn [fst snd handle].
  pose proof (delete_is_filter _ n s (parseInt_decimal n) Hnd) as Es.
  assert (Hgone : ~ In n (map id (filter (fun t => negb (id t =? n)) (todos s)))).
  { intros Hin. apply in_map_iff in Hin as (t & Et & Ht).
    apply filter_In in Ht as [_ Ht].
    apply negb_true_iff, Z.eqb_neq in Ht. contradiction. }
  destruct (delete_cases _ s n (parseInt_decimal n))
    as [[Habs R]|(l1 & x & l2 & El & Ex & _ & R)].
  - rewrite R. cbn [fst snd]. split; [exact M|].
    assert (Hn : ~ In n (ids s)).
    { intros Hin. apply in_map_iff in Hin as (t & Et & Ht).
      now apply (Habs t Ht). }
    split; [exact Hn|]. right. repeat split. exact Hn.
  - rewrite Es. rewrite R. cbn [fst]. unfold ids. cbn [todos].
    split; [|split; [exact Hgone|]].
    + unfold mirrors in *.
      cbn [App.deleteTodo_settle App.ok no_content status negb].
      cbn [Z.leb Z.compare Pos.compare Pos.compare_cont andb negb].
      cbn [App.todos App.setSuccess App.setTodos App.setError todos].
      rewrite M. apply filter_mirror.
    + left. repeat split.
      rewrite El, map_app. apply in_or_app. right. left. exact Ex.
Qed.

Lemma deleteTodo_keeps_mirror_witness :
  let s := store_after default_env [(noon, post_text "a")] in
  let st := {| App.todos := map Created (todos s); App.newTodo := [];
               App.loading := false; App.error := None;
               App.success := None |} in
  mirrors (fst (deleteTodo_served default_env noon 1 st s))
    (snd (deleteTodo_served default_env noon 1 st s)).
Proof.
  refine (proj1 (deleteTodo_keeps_mirror default_env noon 1
                   {| App.todos :=
                        map Created
                          (todos (store_after default_env [(noon, post_text "a")]));
                      App.newTodo := []; App.loading := false;
                      App.error := None; App.success := None |}
                   (store_after default_env [(noon, post_text "a")])
                   eq_refl _)).
  repeat constructor. cbn. intuition.
Defined.

(** X14: when the request of [addTodo] or [deleteTodo] does not succeed
    ([fetch] rejects or the answer is not [ok]), the front end keeps the
    list shown and the text typed as they were, shows no success message
    and sets an error message. *)
Theorem failed_request_keeps_list json_error fetch st :
  (forall req,
     App.addTodo_request st = Some req -> failed (fetch req) = true ->
     let st' := App.addTodo json_error fetch st in
     App.todos st' = App.todos st /\ App.newTodo st' = App.newTodo st
     /\ App.success st' = None /\ exists m, App.error st' = Some m)
  /\ (forall n,
        failed (fetch (App.deleteTodo_request n)) = true ->
        let st' := App.deleteTodo fetch n st in
        App.todos st' = App.todos st /\ App.newTodo st' = App.newTodo st
        /\ App.success st' = None /\ exists m, App.error st' = Some m).
Proof.
  split.
  - intros req E F. cbv zeta. unfold App.addTodo. rewrite E.
    destruct (fetch req) as [r|m]; cbn [failed App.addTodo_settle] in *.
    + rewrite F. destruct (body r); repeat split; eexists; reflexivity.
    + repeat split. eexists; reflexivity.
  - intros n F. cbv zeta. unfold App.deleteTodo.
    destruct (fetch (App.deleteTodo_request n)) as [r|m];
      cbn [failed App.deleteTodo_settle] in *.
    + rewrite F. repeat split. eexists; reflexivity.
    + repeat split. eexists; reflexivity.
Qed.

Lemma failed_request_keeps_list_witness :
  let st := {| App.todos := []; App.newTodo := lit "a";
               App.loading := false; App.error := None;
               App.success := Some (lit "Todo added successfully!") |} in
  let st' := App.addTodo [] (fun _ => App.Resolved not_found) st in
  App.todos st' = App.todos st /\ App.newTodo st' = App.newTodo st
  /\ App.success st' = None /\ exists m, App.error st' = Some m.
Proof.
  exact (proj1 (failed_request_keeps_list [] (fun _ => App.Resolved not_found)
                  {| App.todos := []; App.newTodo := lit "a";
                     App.loading := false; App.error := None;
                     App.success := Some (lit "Todo added successfully!") |})
               (post_text "a") eq_refl eq_refl).
Defined.
